(** * Named-entity-recognition notebook: configuration and inference post-processing

    A shallow embedding of the code cells of the notebook
    [040_NamedEntityRecognition] (with the constructor signature displayed
    in [020_ExploreNeMo]): the parameter dictionaries, the data-layer
    constructor calls, and the cell that turns predicted class ids back
    into bracketed IOB tags.

    Python values are modelled as follows.
    - [str]: a Python 3 string is a sequence of Unicode code points, hence
      [list N]; [py "..."] writes a literal.
    - numpy arrays: nested lists; int64 entries are [Z], float entries are
      the rationals [Q] they denote (finite values only).
    - [dict]: a finite map [gmap]; a missing key raises [KeyError].
    - exceptions: the sum type [result]; printing: a log threaded through
      the [io] monad.  The notebook has no [try] statement, so the
      embedding has no handler combinator. *)

From Stdlib Require Import QArith.
From stdpp Require Import base list gmap strings.

Open Scope N_scope.
Open Scope Z_scope.
Open Scope nat_scope.

(** ** Strings *)

Definition char := N.
Definition str := list char.

Definition py (s : string) : str :=
  Ascii.N_of_ascii <$> String.list_ascii_of_string s.

(** [str.isspace] on one code point (the table of CPython's
    [_PyUnicode_IsWhitespace]). *)
Definition isspace (c : char) : bool :=
  ((9 <=? c) && (c <=? 13))%N
  || ((28 <=? c) && (c <=? 32))%N
  || (c =? 133)%N || (c =? 160)%N || (c =? 5760)%N
  || ((8192 <=? c) && (c <=? 8202))%N
  || (c =? 8232)%N || (c =? 8233)%N || (c =? 8239)%N
  || (c =? 8287)%N || (c =? 12288)%N.

Fixpoint lstrip (s : str) : str :=
  match s with
  | [] => []
  | c :: s' => if isspace c then lstrip s' else s
  end.

Definition rstrip (s : str) : str := reverse (lstrip (reverse s)).

(** [s.strip()] *)
Definition strip (s : str) : str := rstrip (lstrip s).

(** [s.split()] with no separator: maximal runs of non-whitespace.  [cur]
    is the word scanned so far. *)
Fixpoint split_from (cur : str) (s : str) : list str :=
  match s with
  | [] => match cur with [] => [] | _ => [cur] end
  | c :: s' =>
      if isspace c then
        match cur with
        | [] => split_from [] s'
        | _ => cur :: split_from [] s'
        end
      else split_from (cur ++ [c]) s'
  end.

Definition split (s : str) : list str := split_from [] s.

(** [sep.join(words)] *)
Fixpoint join (sep : str) (words : list str) : str :=
  match words with
  | [] => []
  | [w] => w
  | w :: ws => w ++ sep ++ join sep ws
  end.

(** [os.path.join(a, b)] on POSIX, two components. *)
Definition os_path_join (a b : str) : str :=
  match b with
  | 47%N :: _ => b
  | _ =>
      match reverse a with
      | [] => b
      | 47%N :: _ => a ++ b
      | _ => a ++ py "/" ++ b
      end
  end.

(** ** Exceptions and printing *)

Inductive exn :=
  | IndexError
  | KeyError
  | ValueError
  | FrameworkError (name : string).

Inductive result (A : Type) :=
  | Ok (a : A)
  | Raise (e : exn).
Arguments Ok {A} a.
Arguments Raise {A} e.

#[export] Instance result_ret : MRet result := λ A a, Ok a.
#[export] Instance result_bind : MBind result := λ A B f m,
  match m with
  | Ok a => f a
  | Raise e => Raise e
  end.

#[export] Instance result_fmap : FMap result := λ A B f m,
  match m with
  | Ok a => Ok (f a)
  | Raise e => Raise e
  end.

(** [a[j]] on a sequence, [j] a non-negative index. *)
Definition getitem {A} (a : list A) (j : nat) : result A :=
  match a !! j with
  | Some x => Ok x
  | None => Raise IndexError
  end.

(** [d[k]] on a dict. *)
Definition dict_getitem `{Countable K} {V} (d : gmap K V) (k : K) : result V :=
  match d !! k with
  | Some v => Ok v
  | None => Raise KeyError
  end.

(** Code that prints: the log of [print] calls so far goes in, the log
    and the outcome come out. *)
Definition io (A : Type) : Type := list str → list str * result A.

#[export] Instance io_ret : MRet io := λ A a log, (log, Ok a).
#[export] Instance io_bind : MBind io := λ A B f m log,
  match m log with
  | (log', Ok a) => f a log'
  | (log', Raise e) => (log', Raise e)
  end.

Definition print (s : str) : io unit := λ log, (log ++ [s], Ok ()).
Definition lift {A} (r : result A) : io A := λ log, (log, r).

(** ** Input parameters (section 4.1.1 of the notebook) *)

Definition DATA_DIR : str := py "/dli/task/data/NCBI_ner-3/".
Definition CHECKPOINTS_PATH : str := py "/ngc_checkpoints/checkpoints/".
Definition MODEL_TYPE : str := py "biobert".
Definition MAX_SEQ_LEN : nat := 128.
Definition BATCH_SIZE : nat := 16.
Definition NONE_LABEL : str := py "O".
Definition NUM_CLASSES : nat := 3.

Definition PRETRAINED_MODEL_NAME : gmap str str :=
  {[ py "biobert" := py "bert-base-cased";
     py "biomegatron" := py "megatron-bert-uncased" ]}.
Definition DO_LOWER_CASE : gmap str bool :=
  {[ py "biobert" := false;
     py "biomegatron" := true ]}.
Definition WORK_DIR : gmap str str :=
  {[ py "biobert" := py "/dli/task/data/logs-ner-biobert/";
     py "biomegatron" := py "/dli/task/data/logs-ner-biomegatron" ]}.
Definition NGC_CHECKPOINT : gmap str str :=
  {[ py "biobert" := CHECKPOINTS_PATH ++ py "biobert/BERT.pt";
     py "biomegatron" := CHECKPOINTS_PATH ++ py "biomegatron/MegatronBERT.pt" ]}.
Definition NGC_CONFIG : gmap str str :=
  {[ py "biobert" := CHECKPOINTS_PATH ++ py "biobert/bert_config.json";
     py "biomegatron" := CHECKPOINTS_PATH ++ py "biomegatron/config.json" ]}.

(** ** Neural modules (sections 4.2 and 4.5.1) *)

Definition USE_CACHE : bool := true.

(** The arguments of [get_tokenizer(...)]. *)
Record Tokenizer := {
  tokenizer_name : str;
  pretrained_model_name : str;
  do_lower_case : bool
}.

Definition tokenizer (model_type : str) : result Tokenizer :=
  name ← dict_getitem PRETRAINED_MODEL_NAME model_type;
  lower ← dict_getitem DO_LOWER_CASE model_type;
  mret {| tokenizer_name := py "nemobert";
          pretrained_model_name := name;
          do_lower_case := lower |}.

(** The optional parameters of [BertTokenClassificationDataLayer], as a
    call gives them: [None] is a parameter the call leaves out. *)
Record DataLayerKwargs := {
  kw_pad_label : option str;
  kw_label_ids : option (gmap str Z);
  kw_num_samples : option Z;
  kw_shuffle : option bool;
  kw_batch_size : option nat;
  kw_ignore_extra_tokens : option bool;
  kw_ignore_start_end : option bool;
  kw_use_cache : option bool
}.

Record TokenClassificationDataLayer := {
  text_file : str;
  label_file : str;
  dl_tokenizer : Tokenizer;
  max_seq_length : nat;
  pad_label : str;
  label_ids : option (gmap str Z);
  num_samples : Z;
  shuffle : bool;
  batch_size : nat;
  ignore_extra_tokens : bool;
  ignore_start_end : bool;
  use_cache : bool
}.

(** The constructor with the defaults of its signature
    [(text_file, label_file, tokenizer, max_seq_length, pad_label='O',
      label_ids=None, num_samples=-1, shuffle=False, batch_size=64,
      ignore_extra_tokens=False, ignore_start_end=False, use_cache=False, ...)]. *)
Definition BertTokenClassificationDataLayer (text_file label_file : str)
    (tok : Tokenizer) (max_seq_length : nat) (kw : DataLayerKwargs)
    : TokenClassificationDataLayer :=
  {| text_file := text_file;
     label_file := label_file;
     dl_tokenizer := tok;
     max_seq_length := max_seq_length;
     pad_label := default (py "O") (kw_pad_label kw);
     label_ids := kw_label_ids kw;
     num_samples := default (-1)%Z (kw_num_samples kw);
     shuffle := default false (kw_shuffle kw);
     batch_size := default 64 (kw_batch_size kw);
     ignore_extra_tokens := default false (kw_ignore_extra_tokens kw);
     ignore_start_end := default false (kw_ignore_start_end kw);
     use_cache := default false (kw_use_cache kw) |}.

(** The keywords of the call that builds [dl_train]:
    [shuffle=True, batch_size=BATCH_SIZE, use_cache=USE_CACHE]. *)
Definition dl_train_kwargs : DataLayerKwargs :=
  {| kw_pad_label := None;
     kw_label_ids := None;
     kw_num_samples := None;
     kw_shuffle := Some true;
     kw_batch_size := Some BATCH_SIZE;
     kw_ignore_extra_tokens := None;
     kw_ignore_start_end := None;
     kw_use_cache := Some USE_CACHE |}.

Definition dl_train (model_type : str) : result TokenClassificationDataLayer :=
  tok ← tokenizer model_type;
  mret (BertTokenClassificationDataLayer
          (os_path_join DATA_DIR (py "text_train.txt"))
          (os_path_join DATA_DIR (py "labels_train.txt"))
          tok MAX_SEQ_LEN dl_train_kwargs).

(** Modelled from the spec: the padding of an example's label ids inside
    the data layer, which is the framework's code and not in the notebooks.
    The spec describes label ids "truncated/padded to a fixed maximum length"
    with "a pad label mapped to the outside class", and the notebook's
    comment on [MAX_SEQ_LEN] reads "Shorter sequences will be padded with
    NONE_LABEL, longer ones truncated": longer sequences are truncated,
    shorter ones padded with the id of the pad label. *)
Definition padded_label_ids (dl : TokenClassificationDataLayer)
    (ids_of : gmap str Z) (ids : list Z) : result (list Z) :=
  pad_id ← dict_getitem ids_of (pad_label dl);
  mret (take (max_seq_length dl) ids
        ++ replicate (max_seq_length dl - length ids) pad_id).

(** The arguments of [BertTokenClassificationInferDataLayer(tokenizer=...,
    queries=..., max_seq_length=..., batch_size=...)]. *)
Record TokenClassificationInferDataLayer := {
  infer_tokenizer : Tokenizer;
  infer_queries : list str;
  infer_max_seq_length : nat;
  infer_batch_size : nat
}.

(** The test data layer as a run of the notebook reaches it: its cell reads
    the variable [tokenizer], which the tokenizer cell must have set
    before; the two cells are taken in sequence. *)
Definition dl_test (model_type : str) (queries : list str)
    : result TokenClassificationInferDataLayer :=
  tok ← tokenizer model_type;
  mret {| infer_tokenizer := tok;
          infer_queries := queries;
          infer_max_seq_length := MAX_SEQ_LEN;
          infer_batch_size := 1 |}.

(** ** Running the trainer (section 4.4.3) *)

(** [nemo.core.NeuralModuleFactory.reset_trainer(nf)] followed by
    [nf.train(...)]: two calls into the framework. *)
Definition training (reset_trainer nf_train : io unit) : io unit :=
  _ ← reset_trainer;
  nf_train.

(** ** Gathering the results (section 4.5.3) *)

(** [add_brackets(text, add=True)]; [None] is an omitted argument. *)
Definition add_brackets (text : str) (add : option bool) : str :=
  if default true add then py "[" ++ text ++ py "]" else text.

(** [np.concatenate] along axis 0.  The arrays must agree on the other
    axes: [shape] gives the shape of one row, and a list of rows of
    different shapes denotes no array. *)
Definition same_shape {A S} `{EqDecision S} (shape : A → S) (rows : list A) : bool :=
  match rows with
  | [] => true
  | r :: rows' => forallb (λ r', bool_decide (shape r' = shape r)) rows'
  end.

Definition concatenate {A S} `{EqDecision S} (shape : A → S)
    (lists : list (list A)) : result (list A) :=
  match lists with
  | [] => Raise ValueError
  | _ => if same_shape shape (concat lists) then Ok (concat lists)
         else Raise ValueError
  end.

(** [np.argmax] of one vector of finite values: the first index that
    holds the maximum ([mp] is the maximum so far, found at [best]). *)
Fixpoint argmax_from (mp : Q) (best i : nat) (xs : list Q) : nat :=
  match xs with
  | [] => best
  | x :: xs' =>
      if Qle_bool x mp then argmax_from mp best (S i) xs'
      else argmax_from x i (S i) xs'
  end.

Definition argmax (xs : list Q) : result Z :=
  match xs with
  | [] => Raise ValueError
  | x :: xs' => Ok (Z.of_nat (argmax_from x 0 1 xs'))
  end.

Fixpoint traverse {A B} (f : A → result B) (l : list A) : result (list B) :=
  match l with
  | [] => Ok []
  | x :: l' => y ← f x; ys ← traverse f l'; mret (y :: ys)
  end.

(** [np.argmax(logits, axis=2)] *)
Definition argmax_axis2 (logits : list (list (list Q))) : result (list (list Z)) :=
  traverse (traverse argmax) logits.

(** What [nf.infer(tensors=[test_logits, test_data.subtokens_mask])]
    returns: for each of the two tensors, one array per batch. *)
Definition infer_tensors : Type :=
  list (list (list (list Q))) * list (list (list Q)).

(** [logits, subtokens_mask = [concatenate(tensors) for tensors in ...]]
    followed by [preds = np.argmax(logits, axis=2)]. *)
Definition gather (test_logits_tensors : infer_tensors)
    : result (list (list Z) * list (list Q)) :=
  logits ← concatenate (fmap (M:=list) length) test_logits_tensors.1;
  subtokens_mask ← concatenate length test_logits_tensors.2;
  preds ← argmax_axis2 logits;
  mret (preds, subtokens_mask).

(** [m > 0.5] *)
Definition gt_half (m : Q) : bool := negb (Qle_bool m (1 # 2)).

(** [a[bits]] with a boolean array [bits]: the entries of [a] at the
    positions where [bits] is true; the two lengths must match. *)
Fixpoint take_where {A} (a : list A) (bits : list bool) : list A :=
  match a, bits with
  | x :: a', b :: bits' =>
      if b then x :: take_where a' bits' else take_where a' bits'
  | _, _ => []
  end.

Definition boolean_index {A} (a : list A) (bits : list bool) : result (list A) :=
  if decide (length bits = length a) then Ok (take_where a bits)
  else Raise IndexError.

(** The body of [for j, w in enumerate(words)], from index [j] on, with the
    value of [output] so far. *)
Fixpoint label_words (labels_dict : gmap Z str) (pred : list Z) (j : nat)
    (words : list str) (output : str) : result str :=
  match words with
  | [] => Ok output
  | w :: words' =>
      let output := output ++ w in
      p ← getitem pred j;
      label ← dict_getitem labels_dict p;
      let output :=
        if decide (label ≠ NONE_LABEL)
        then output ++ add_brackets label None
        else output in
      label_words labels_dict pred (S j) words' (output ++ py " ")
  end.

(** [pred = preds[i][subtokens_mask[i] > 0.5]] *)
Definition select_pred (preds : list (list Z)) (subtokens_mask : list (list Q))
    (i : nat) : result (list Z) :=
  row ← getitem preds i;
  mask ← getitem subtokens_mask i;
  boolean_index row (gt_half <$> mask).

(** The value of [output] at the end of iteration [i] of the outer loop. *)
Definition label_query (labels_dict : gmap Z str) (preds : list (list Z))
    (subtokens_mask : list (list Q)) (i : nat) (query : str) : result str :=
  pred ← select_pred preds subtokens_mask i;
  let words := split (strip query) in
  label_words labels_dict pred 0 words [].

Definition newline : str := [10%N].

(** [for i, query in enumerate(queries)], from index [i] on.  The two
    separators are the strings [termcolor.colored] returned. *)
Fixpoint label_queries (blue_separator green_separator : str)
    (labels_dict : gmap Z str) (preds : list (list Z))
    (subtokens_mask : list (list Q)) (i : nat) (queries : list str) : io unit :=
  match queries with
  | [] => mret ()
  | query :: queries' =>
      _ ← print (py "Query:" ++ newline ++ query);
      output ← lift (label_query labels_dict preds subtokens_mask i query);
      _ ← print (blue_separator ++ newline ++ py "Labeled Result:" ++ newline
                 ++ strip output ++ newline ++ green_separator);
      label_queries blue_separator green_separator labels_dict preds
        subtokens_mask (S i) queries'
  end.

(** Sections 4.5.2 and 4.5.3 in sequence.  [nf_infer] and [get_vocab] are
    the framework's calls; they print and raise what the framework does. *)
Definition inference (nf_infer : io infer_tensors)
    (get_vocab : str → io (gmap Z str)) (blue_separator green_separator : str)
    (queries : list str) : io unit :=
  test_logits_tensors ← nf_infer;
  gathered ← lift (gather test_logits_tensors);
  labels_dict ← get_vocab (DATA_DIR ++ py "label_ids.csv");
  label_queries blue_separator green_separator labels_dict
    gathered.1 gathered.2 0 queries.

(** ** Reading the labeled output *)

(** What the loop appends for one word after the word itself. *)
Definition annotation (label : str) : str :=
  if decide (label ≠ NONE_LABEL) then py "[" ++ label ++ py "]" else [].

(** The labeled output for words paired with their label strings. *)
Definition render (tagged : list (str * str)) : str :=
  concat ((λ wl, wl.1 ++ annotation wl.2 ++ py " ") <$> tagged).

(** The label strings the loop selects for [n] words from index [j] on:
    [labels_dict[pred[k]]] for [k = j, ..., j + n - 1]. *)
Definition word_labels (labels_dict : gmap Z str) (pred : list Z)
    (j n : nat) : result (list str) :=
  traverse (λ k, p ← getitem pred k; dict_getitem labels_dict p) (seq j n).

(** The loop of [label_words] replayed on marks: one mark for every
    character the loop appends to [output], [true] for the characters of a
    bracketed tag ([output += label] after [add_brackets]), [false] for the
    characters of the words and for the spaces. *)
Fixpoint annotation_marks (labels_dict : gmap Z str) (pred : list Z) (j : nat)
    (words : list str) (marks : list bool) : result (list bool) :=
  match words with
  | [] => Ok marks
  | w :: words' =>
      let marks := marks ++ replicate (length w) false in
      p ← getitem pred j;
      label ← dict_getitem labels_dict p;
      let marks :=
        if decide (label ≠ NONE_LABEL)
        then marks ++ replicate (length (add_brackets label None)) true
        else marks in
      annotation_marks labels_dict pred (S j) words' (marks ++ [false])
  end.

(** Stripping the tag annotations from the output: the characters that the
    loop appended as tags are dropped, all others kept in place. *)
Definition strip_annotations (marks : list bool) (output : str) : str :=
  take_where output (negb <$> marks).

(** The marks of a rendered line. *)
Definition render_marks (tagged : list (str * str)) : list bool :=
  concat ((λ wl, replicate (length wl.1) false
                 ++ replicate (length (annotation wl.2)) true ++ [false])
          <$> tagged).

(** A bracketed tag comes first in [s]. *)
Definition tag_follows (s : str) : Prop :=
  ∃ tag rest, s = py "[" ++ tag ++ py "]" ++ rest.

(** The notebook's label vocabulary, as its training report lists it:
    [O (label id: 0)], [B (label id: 1)], [I (label id: 2)]. *)
Definition iob_labels : gmap Z str :=
  {[ 0%Z := py "O"; 1%Z := py "B"; 2%Z := py "I" ]}.

(** Words as [split] returns them: non-empty, free of whitespace. *)
Definition no_space (w : str) : Prop := Forall (λ c, isspace c = false) w.
Definition is_word (w : str) : Prop := w ≠ [] ∧ no_space w.

(** Words each followed by one space: the output when no word is tagged. *)
Definition spaced (words : list str) : str :=
  concat ((λ w, w ++ py " ") <$> words).

(** The query of the notebook's sample output, with class ids and a
    sub-token mask for it ([CLS], the pieces of each word, [SEP]). *)
Definition sample_query : str :=
  py "Oral contraceptives protect against ovarian cancer in general , but it is not known whether they also protect against hereditary forms . ".

Definition sample_preds : list (list Z) :=
  [[0; 0; 0; 2; 0; 0; 0; 1; 2; 0; 0; 0; 0; 0; 0; 0; 0; 0; 0; 0; 0; 0; 0; 0; 0; 0]%Z].

Definition sample_mask : list (list Q) :=
  [[0; 1; 1; 0; 0; 1; 1; 1; 1; 1; 1; 1; 1; 1; 1; 1; 1; 1; 1; 1; 1; 1; 1; 1; 1; 0]%Q].

(** ** Learning-rate schedule (section 4.4.1) *)

Definition NUM_EPOCHS : nat := 4.

(** [steps_per_epoch = len(dl_train) // BATCH_SIZE]; the argument is
    [len(dl_train)]. *)
Definition steps_per_epoch (len_dl_train : nat) : nat :=
  len_dl_train / BATCH_SIZE.

(** The [total_steps=NUM_EPOCHS * steps_per_epoch] given to
    [get_lr_policy]. *)
Definition total_steps (len_dl_train : nat) : nat :=
  NUM_EPOCHS * steps_per_epoch len_dl_train.

(** ** Reading the printed log *)

(** A word with what the loop appends to it before the space. *)
Definition tagged (w label : str) : str := w ++ annotation label.

(** The two strings the outer loop prints for a query whose labeling gave
    [output]. *)
Definition query_lines (blue_separator green_separator : str)
    (query output : str) : list str :=
  [py "Query:" ++ newline ++ query;
   blue_separator ++ newline ++ py "Labeled Result:" ++ newline
   ++ strip output ++ newline ++ green_separator].

(** Strings that begin and end with a character that is no whitespace. *)
Definition trimmed (t : str) : Prop :=
  (∃ c t', t = c :: t' ∧ isspace c = false)
  ∧ (∃ t' c, t = t' ++ [c] ∧ isspace c = false).

(** * Properties *)

(** ** Strings *)

Lemma is_word_cons c cur : no_space (c :: cur) → is_word (c :: cur).
Proof. intros H. split; [discriminate | exact H]. Qed.

Lemma split_from_words s : ∀ cur,
  no_space cur → Forall is_word (split_from cur s).
Proof.
  induction s as [|c s IH]; intros cur Hcur; simpl.
  - destruct cur; [apply Forall_nil_2 |].
    apply Forall_cons_2; [by apply is_word_cons | apply Forall_nil_2].
  - destruct (isspace c) eqn:Hc.
    + destruct cur as [|a cur].
      * apply IH. apply Forall_nil_2.
      * apply Forall_cons_2; [by apply is_word_cons |]. apply IH. apply Forall_nil_2.
    + apply IH. apply Forall_app. split; [exact Hcur |].
      apply Forall_cons_2; [exact Hc | apply Forall_nil_2].
Qed.

Lemma split_words s : Forall is_word (split s).
Proof. apply split_from_words. constructor. Qed.

Lemma split_from_app w : no_space w →
  ∀ cur s, split_from cur (w ++ s) = split_from (cur ++ w) s.
Proof.
  induction 1 as [|c w Hc _ IH]; intros cur s; simpl.
  - by rewrite app_nil_r.
  - rewrite Hc, IH. by rewrite <- app_assoc.
Qed.

Lemma split_word_space w c s :
  is_word w → isspace c = true → split (w ++ c :: s) = w :: split s.
Proof.
  intros [Hne Hw] Hc. unfold split. rewrite split_from_app by done.
  simpl. rewrite Hc. by destruct w.
Qed.

Lemma lstrip_word w s : is_word w → lstrip (w ++ s) = w ++ s.
Proof.
  intros [Hne Hw]. destruct Hw as [|c w Hc _]; [done |].
  simpl. by rewrite Hc.
Qed.

Lemma reverse_is_word w : is_word w → is_word (reverse w).
Proof.
  intros [Hne Hw]. split.
  - intros E. apply Hne. apply (f_equal reverse) in E.
    by rewrite reverse_involutive in E.
  - unfold no_space in *. apply Forall_forall. intros c Hc.
    rewrite elem_of_reverse in Hc. by apply (proj1 (Forall_forall _ _) Hw).
Qed.

(** ** The word loop computes [render] of the selected labels *)

Lemma bind_Ok {A B} (m : result A) (f : A → result B) b :
  m ≫= f = Ok b ↔ ∃ a, m = Ok a ∧ f a = Ok b.
Proof.
  destruct m as [a|e]; simpl; split.
  - intros H. by exists a.
  - by intros (a' & [= <-] & H).
  - done.
  - by intros (a' & [=] & _).
Qed.

Lemma word_labels_S labels_dict pred j n :
  word_labels labels_dict pred j (S n) =
  p ← getitem pred j; label ← dict_getitem labels_dict p;
  labs ← word_labels labels_dict pred (S j) n; mret (label :: labs).
Proof.
  unfold word_labels. simpl.
  destruct (getitem pred j) as [p|e]; [simpl | done].
  by destruct (dict_getitem labels_dict p).
Qed.

Lemma render_cons w label tagged :
  render ((w, label) :: tagged) =
  w ++ annotation label ++ py " " ++ render tagged.
Proof. unfold render. simpl. by rewrite <- !app_assoc. Qed.

Lemma label_words_spec labels_dict pred words : ∀ j output,
  label_words labels_dict pred j words output =
  labs ← word_labels labels_dict pred j (length words);
  mret (output ++ render (zip words labs)).
Proof.
  induction words as [|w words IH]; intros j output.
  - simpl. unfold mret, result_ret. by rewrite app_nil_r.
  - change (length (w :: words)) with (S (length words)).
    rewrite word_labels_S. simpl.
    destruct (getitem pred j) as [p|e]; [simpl | done].
    destruct (dict_getitem labels_dict p) as [label|e]; [simpl | done].
    rewrite IH.
    destruct (word_labels labels_dict pred (S j) (length words)) as [labs|e];
      [simpl | done].
    unfold mret, result_ret. f_equal. rewrite render_cons.
    unfold annotation, add_brackets. simpl.
    destruct (decide (label ≠ NONE_LABEL)); by rewrite <- !app_assoc.
Qed.

Lemma word_labels_Ok labels_dict pred n : ∀ j labs,
  word_labels labels_dict pred j n = Ok labs ↔
  length labs = n ∧
  ∀ k, k < n → ∃ p label, pred !! (j + k) = Some p
                 ∧ labels_dict !! p = Some label ∧ labs !! k = Some label.
Proof.
  induction n as [|n IH]; intros j labs.
  - unfold word_labels. simpl. split.
    + intros [= <-]. split; [done | lia].
    + intros [Hl _]. by destruct labs.
  - rewrite word_labels_S. unfold getitem, dict_getitem. split.
    + intros H.
      destruct (pred !! j) as [p|] eqn:Hp; [simpl in H | done].
      destruct (labels_dict !! p) as [label|] eqn:Hlab; [simpl in H | done].
      destruct (word_labels labels_dict pred (S j) n) as [labs'|] eqn:Hrec;
        [simpl in H | done].
      injection H as <-. apply IH in Hrec as [Hlen Hk].
      split; [simpl; lia |]. intros [|k] Hlt.
      * exists p, label. by rewrite Nat.add_0_r.
      * destruct (Hk k) as (p' & l' & ? & ? & ?); [lia |].
        exists p', l'. by rewrite Nat.add_succ_r.
    + intros [Hlen Hk]. destruct labs as [|label labs]; [done |].
      destruct (Hk 0) as (p & l & Hp & Hl & Hz); [lia |].
      rewrite Nat.add_0_r in Hp. rewrite Hp. simpl. rewrite Hl. simpl.
      injection Hz as ->.
      assert (word_labels labels_dict pred (S j) n = Ok labs) as ->; [|done].
      apply IH. split; [simpl in Hlen; lia |]. intros k Hlt.
      destruct (Hk (S k)) as (p' & l' & ? & ? & ?); [lia |].
      exists p', l'. by rewrite Nat.add_succ_r in *.
Qed.

Lemma word_labels_Raise labels_dict pred n : ∀ j e,
  word_labels labels_dict pred j n = Raise e ↔
  ∃ k, k < n
    ∧ (∀ k', k' < k → ∃ p, pred !! (j + k') = Some p ∧ is_Some (labels_dict !! p))
    ∧ (pred !! (j + k) = None ∧ e = IndexError
       ∨ ∃ p, pred !! (j + k) = Some p ∧ labels_dict !! p = None ∧ e = KeyError).
Proof.
  induction n as [|n IH]; intros j e.
  - unfold word_labels. simpl. split; [done | intros (k & ? & _); lia].
  - rewrite word_labels_S. unfold getitem, dict_getitem. split.
    + intros H. destruct (pred !! j) as [p|] eqn:Hp; simpl in H.
      2:{ injection H as <-. exists 0. rewrite Nat.add_0_r.
          split; [lia |]. split; [intros; lia | by left]. }
      destruct (labels_dict !! p) as [label|] eqn:Hlab; simpl in H.
      2:{ injection H as <-. exists 0. rewrite Nat.add_0_r.
          split; [lia |]. split; [intros; lia | right; by exists p]. }
      destruct (word_labels labels_dict pred (S j) n) as [labs|e'] eqn:Hrec;
        [done | simpl in H]. injection H as ->.
      apply IH in Hrec as (k & Hk & Hbefore & Hat).
      exists (S k). rewrite Nat.add_succ_r. split; [lia |]. split; [| done].
      intros [|k'] Hlt.
      * rewrite Nat.add_0_r. exists p. by rewrite Hlab.
      * rewrite Nat.add_succ_r. apply Hbefore. lia.
    + intros (k & Hk & Hbefore & Hat). destruct k as [|k].
      * rewrite Nat.add_0_r in Hat.
        destruct Hat as [[-> ->] | (p & -> & Hnone & ->)]; [done |].
        simpl. by rewrite Hnone.
      * destruct (Hbefore 0) as (p & Hp & [label Hlab]); [lia |].
        rewrite Nat.add_0_r in Hp. rewrite Hp. simpl. rewrite Hlab. simpl.
        assert (word_labels labels_dict pred (S j) n = Raise e) as ->; [|done].
        apply IH. exists k. split; [lia |]. rewrite Nat.add_succ_r in Hat.
        split; [| done]. intros k' Hlt.
        destruct (Hbefore (S k')) as (p' & Hp' & Hl'); [lia |].
        rewrite Nat.add_succ_r in Hp'. by exists p'.
Qed.

(** ** Splitting a line of space-terminated words *)

Lemma spaced_cons w words : spaced (w :: words) = w ++ 32%N :: spaced words.
Proof. unfold spaced. simpl. by rewrite <- app_assoc. Qed.

Lemma split_spaced words : Forall is_word words → split (spaced words) = words.
Proof.
  induction 1 as [|w words Hw _ IH]; [done |].
  rewrite spaced_cons, split_word_space by done. by rewrite IH.
Qed.

Lemma spaced_join w words :
  spaced (w :: words) = join (py " ") (w :: words) ++ py " ".
Proof.
  revert w. induction words as [|w' words IH]; intros w.
  - unfold spaced. simpl. by rewrite app_nil_r.
  - rewrite spaced_cons, IH. simpl. by rewrite <- !app_assoc.
Qed.

Lemma join_last w words :
  Forall is_word (w :: words) →
  ∃ s c, join (py " ") (w :: words) = s ++ [c] ∧ isspace c = false.
Proof.
  revert w. induction words as [|w' words IH]; intros w Hall.
  - apply Forall_cons_1 in Hall as [[Hne Hw] _]. simpl.
    destruct (reverse w) as [|c r] eqn:Hr.
    + apply (f_equal reverse) in Hr. rewrite reverse_involutive in Hr. done.
    + exists (reverse r), c. split.
      * apply (f_equal reverse) in Hr. rewrite reverse_involutive in Hr.
        by rewrite Hr, reverse_cons.
      * assert (c ∈ w) as Hin.
        { rewrite <- elem_of_reverse, Hr. by left. }
        by apply (proj1 (Forall_forall _ _) Hw).
  - apply Forall_cons_1 in Hall as [_ Hall].
    destruct (IH w' Hall) as (s & c & Hs & Hc).
    exists (w ++ py " " ++ s), c. split; [| done].
    change (join (py " ") (w :: w' :: words))
      with (w ++ py " " ++ join (py " ") (w' :: words)).
    by rewrite Hs, <- !app_assoc.
Qed.

Lemma strip_spaced words :
  Forall is_word words → strip (spaced words) = join (py " ") words.
Proof.
  intros Hall. destruct words as [|w words]; [done |].
  unfold strip, rstrip.
  assert (lstrip (spaced (w :: words)) = spaced (w :: words)) as ->.
  { rewrite spaced_cons. apply lstrip_word.
    by apply Forall_cons_1 in Hall as [? _]. }
  rewrite spaced_join. destruct (join_last w words Hall) as (s & c & -> & Hc).
  rewrite reverse_app. change (reverse (py " ")) with [32%N]. simpl.
  rewrite reverse_app. change (reverse [c]) with [c]. simpl. rewrite Hc.
  change (c :: reverse s) with ([c] ++ reverse s).
  rewrite reverse_app, reverse_involutive. done.
Qed.

(** ** Rendered lines *)

Lemma render_app t1 t2 : render (t1 ++ t2) = render t1 ++ render t2.
Proof. unfold render. by rewrite fmap_app, concat_app. Qed.

Lemma render_none words : ∀ labs,
  length labs = length words → Forall (λ label, label = NONE_LABEL) labs →
  render (zip words labs) = spaced words.
Proof.
  induction words as [|w words IH]; intros labs Hlen Hl; [done |].
  destruct labs as [|label labs]; [done |].
  apply Forall_cons_1 in Hl as [-> Hls].
  change (zip (w :: words) (NONE_LABEL :: labs))
    with ((w, NONE_LABEL) :: zip words labs).
  rewrite render_cons, spaced_cons, IH; [done | | done].
  simpl in Hlen. lia.
Qed.

(** ** The outcome of one query *)

Lemma label_query_spec labels_dict preds subtokens_mask i query :
  label_query labels_dict preds subtokens_mask i query =
  pred ← select_pred preds subtokens_mask i;
  labs ← word_labels labels_dict pred 0 (length (split (strip query)));
  mret (render (zip (split (strip query)) labs)).
Proof.
  unfold label_query.
  destruct (select_pred preds subtokens_mask i) as [pred|e]; [simpl | done].
  by rewrite label_words_spec.
Qed.

Lemma label_query_Ok labels_dict preds subtokens_mask i query output :
  label_query labels_dict preds subtokens_mask i query = Ok output ↔
  ∃ pred labs,
    select_pred preds subtokens_mask i = Ok pred
    ∧ word_labels labels_dict pred 0 (length (split (strip query))) = Ok labs
    ∧ output = render (zip (split (strip query)) labs).
Proof.
  rewrite label_query_spec, bind_Ok. split.
  - intros (pred & Hp & H). apply bind_Ok in H as (labs & Hl & [= <-]).
    by exists pred, labs.
  - intros (pred & labs & Hp & Hl & ->). exists pred. split; [done |].
    apply bind_Ok. by exists labs.
Qed.

Lemma select_pred_Ok preds subtokens_mask i pred :
  select_pred preds subtokens_mask i = Ok pred ↔
  ∃ row mask, preds !! i = Some row ∧ subtokens_mask !! i = Some mask
    ∧ length mask = length row ∧ pred = take_where row (gt_half <$> mask).
Proof.
  unfold select_pred, getitem, boolean_index. split.
  - intros H. destruct (preds !! i) as [row|]; [simpl in H | done].
    destruct (subtokens_mask !! i) as [mask|]; [simpl in H | done].
    rewrite length_fmap in H. destruct (decide (length mask = length row)); [| done].
    injection H as <-. by exists row, mask.
  - intros (row & mask & -> & -> & Hlen & ->). simpl.
    rewrite length_fmap. by rewrite decide_True.
Qed.

(** ** The notebook's sample *)

(** The labeled result the notebook shows for its sample query. *)
Example sample_labeled_result :
  strip <$> label_query iob_labels sample_preds sample_mask 0 sample_query =
  Ok (py "Oral contraceptives protect against ovarian[B] cancer[I] in general , but it is not known whether they also protect against hereditary forms .").
Proof. vm_compute. reflexivity. Qed.

Example split_strip_example :
  split (strip (py "  ovarian cancer  in general , ")) =
  [py "ovarian"; py "cancer"; py "in"; py "general"; py ","].
Proof. by vm_compute. Qed.

Example strip_example : strip (py "  a b  ") = py "a b".
Proof. by vm_compute. Qed.

Example join_example : join (py " ") [py "a"; py "b"; py "c"] = py "a b c".
Proof. by vm_compute. Qed.

Example os_path_join_example :
  os_path_join DATA_DIR (py "text_train.txt") =
  py "/dli/task/data/NCBI_ner-3/text_train.txt".
Proof. by vm_compute. Qed.

Example argmax_example : argmax [1; 3; 3; 2]%Q = Ok 1%Z.
Proof. by vm_compute. Qed.

(** A run of the inference cells on two queries, the second of which has
    more words than selected positions: the first result is printed, the
    second query is announced, and the run ends with [IndexError]. *)
Example inference_example :
  inference
    (λ log, (log, Ok ([[[[3; 1; 0]; [0; 2; 1]; [0; 1; 5]; [1; 1; 0]]%Q];
                       [[[3; 1; 0]; [0; 2; 1]; [0; 1; 5]; [1; 1; 0]]%Q]],
                      [[[0; 1; 1; 0]%Q]; [[0; 1; 1; 0]%Q]])))
    (λ _ log, (log, Ok iob_labels))
    (py "----") (py "****")
    [py "ovarian cancer"; py "ovarian cancer risk"] [] =
  ([py "Query:" ++ newline ++ py "ovarian cancer";
    py "----" ++ newline ++ py "Labeled Result:" ++ newline
      ++ py "ovarian[B] cancer[I]" ++ newline ++ py "****";
    py "Query:" ++ newline ++ py "ovarian cancer risk"],
   Raise IndexError).
Proof. by vm_compute. Qed.

(** ** Claims about the labeled output *)

(** C10: for every string [text], [add_brackets(text, add)] is
    ['[' + text + ']'] when [add] is true and [text] unchanged when [add] is
    false; an omitted [add] counts as [True]. *)
Theorem add_brackets_spec (text : str) :
  add_brackets text (Some true) = py "[" ++ text ++ py "]"
  ∧ add_brackets text (Some false) = text
  ∧ add_brackets text None = add_brackets text (Some true).
Proof. by repeat split. Qed.

Lemma word_labels_total labels_dict pred j n :
  (∀ k, k < n → ∃ p, pred !! (j + k) = Some p ∧ is_Some (labels_dict !! p)) →
  ∃ labs, word_labels labels_dict pred j n = Ok labs.
Proof.
  intros Hall.
  destruct (word_labels labels_dict pred j n) as [labs|e] eqn:H; [by exists labs |].
  apply word_labels_Raise in H as (k & Hk & _ & Hat).
  destruct (Hall k Hk) as (p & Hp & [label Hl]).
  destruct Hat as [[Hnone _] | (p' & Hp' & Hnone & _)]; simplify_eq.
Qed.

Lemma render_marks_cons w label tagged :
  render_marks ((w, label) :: tagged) =
  replicate (length w) false
  ++ replicate (length (annotation label)) true ++ [false]
  ++ render_marks tagged.
Proof. unfold render_marks. simpl. by rewrite <- !app_assoc. Qed.

Lemma annotation_marks_spec labels_dict pred words : ∀ j marks,
  annotation_marks labels_dict pred j words marks =
  labs ← word_labels labels_dict pred j (length words);
  mret (marks ++ render_marks (zip words labs)).
Proof.
  induction words as [|w words IH]; intros j marks.
  - simpl. unfold mret, result_ret. by rewrite app_nil_r.
  - change (length (w :: words)) with (S (length words)).
    rewrite word_labels_S. simpl.
    destruct (getitem pred j) as [p|e]; [simpl | done].
    destruct (dict_getitem labels_dict p) as [label|e]; [simpl | done].
    rewrite IH.
    destruct (word_labels labels_dict pred (S j) (length words)) as [labs|e];
      [simpl | done].
    unfold mret, result_ret. f_equal.
    change (zip (w :: words) (label :: labs)) with ((w, label) :: zip words labs).
    rewrite render_marks_cons. unfold annotation, add_brackets. cbn [default].
    destruct (decide (label ≠ NONE_LABEL)); by rewrite <- !app_assoc.
Qed.

Lemma take_where_app {A} (a1 : list A) : ∀ bits1 a2 bits2,
  length bits1 = length a1 →
  take_where (a1 ++ a2) (bits1 ++ bits2)
  = take_where a1 bits1 ++ take_where a2 bits2.
Proof.
  induction a1 as [|x a1 IH]; intros [|b bits1] a2 bits2 Hlen; try done.
  simpl in Hlen. simpl. rewrite IH by lia. by destruct b.
Qed.

Lemma take_where_replicate {A} (a : list A) (b : bool) :
  take_where a (replicate (length a) b) = if b then a else [].
Proof. induction a as [|x a IH]; [by destruct b |]. simpl. rewrite IH. by destruct b. Qed.

Lemma render_marks_length tagged :
  length (render_marks tagged) = length (render tagged).
Proof.
  induction tagged as [|[w label] tagged IH]; [done |].
  rewrite render_marks_cons, render_cons.
  rewrite !length_app, !length_replicate, IH. done.
Qed.

(** Dropping the marked characters of a rendered line leaves the words,
    each followed by one space; the marked characters are the tags. *)
Lemma strip_annotations_render words : ∀ labs,
  length labs = length words →
  strip_annotations (render_marks (zip words labs)) (render (zip words labs))
  = spaced words
  ∧ take_where (render (zip words labs)) (render_marks (zip words labs))
    = concat (annotation <$> labs).
Proof.
  unfold strip_annotations.
  induction words as [|w words IH]; intros [|label labs] Hlen; try done.
  change (zip (w :: words) (label :: labs)) with ((w, label) :: zip words labs).
  destruct (IH labs) as [IH1 IH2]; [simpl in Hlen; lia |].
  rewrite render_marks_cons, render_cons, spaced_cons.
  change (py " " ++ render (zip words labs))
    with (32%N :: render (zip words labs)).
  split.
  - rewrite !fmap_app, !fmap_replicate.
    rewrite (take_where_app w) by apply length_replicate.
    rewrite (take_where_app (annotation label)) by apply length_replicate.
    rewrite !take_where_replicate. cbn [negb fmap list_fmap app take_where].
    by rewrite IH1.
  - rewrite (take_where_app w) by apply length_replicate.
    rewrite (take_where_app (annotation label)) by apply length_replicate.
    rewrite !take_where_replicate. cbn [app take_where].
    by rewrite IH2.
Qed.

(** The output alone does not tell a tag from a bracketed text that
    belongs to a word: a word tagged [B] and an outside word that ends in
    ["[B]"] give the same output.  The tags are therefore located from the
    inputs of the loop, as [annotation_marks] does. *)
Lemma tagged_output_is_ambiguous :
  label_words iob_labels [0%Z] 0 (split (strip (py "a[B]"))) [] =
  label_words iob_labels [1%Z] 0 (split (strip (py "a"))) []
  ∧ split (strip (py "a[B]")) ≠ split (strip (py "a")).
Proof. split; [by vm_compute | by vm_compute]. Qed.

(** C1: for every query and every array of filtered predictions on which
    the loop returns, the labeled output preserves word order: stripping
    from the output the tag annotations the loop appended and splitting on
    whitespace yields exactly the sequence [query.strip().split()]; what is
    stripped is the bracketed tags of the selected labels, in order. *)
Theorem labeled_output_preserves_words labels_dict preds subtokens_mask i
    query output :
  label_query labels_dict preds subtokens_mask i query = Ok output →
  ∃ pred labs marks,
    select_pred preds subtokens_mask i = Ok pred
    ∧ word_labels labels_dict pred 0 (length (split (strip query))) = Ok labs
    ∧ annotation_marks labels_dict pred 0 (split (strip query)) [] = Ok marks
    ∧ length marks = length output
    ∧ take_where output marks = concat (annotation <$> labs)
    ∧ split (strip_annotations marks output) = split (strip query).
Proof.
  intros H. apply label_query_Ok in H as (pred & labs & Hpred & Hlabs & ->).
  exists pred, labs, (render_marks (zip (split (strip query)) labs)).
  split; [done |]. split; [done |]. split.
  { rewrite annotation_marks_spec, Hlabs. done. }
  split; [apply render_marks_length |].
  apply word_labels_Ok in Hlabs as [Hlen _].
  destruct (strip_annotations_render (split (strip query)) labs Hlen)
    as [Hkept Hdropped].
  split; [done |]. rewrite Hkept. apply split_spaced, split_words.
Qed.

Lemma labeled_output_preserves_words_witness :
  ∃ pred labs marks,
    select_pred [[0; 0; 1; 0]%Z] [[0; 1; 1; 0]%Q] 0 = Ok pred
    ∧ word_labels iob_labels pred 0 (length (split (strip (py "see [B] ")))) = Ok labs
    ∧ annotation_marks iob_labels pred 0 (split (strip (py "see [B] "))) []
      = Ok marks
    ∧ length marks = length (py "see [B][B] ")
    ∧ take_where (py "see [B][B] ") marks = concat (annotation <$> labs)
    ∧ split (strip_annotations marks (py "see [B][B] "))
      = split (strip (py "see [B] ")).
Proof.
  apply (labeled_output_preserves_words iob_labels [[0; 0; 1; 0]%Z]
           [[0; 1; 1; 0]%Q] 0 (py "see [B] ")).
  vm_compute. reflexivity.
Defined.

(** C2: in the labeled output, the word at position [j] is immediately
    followed by a bracketed tag if and only if the label selected for it
    differs from [NONE_LABEL]; a word labeled ["O"] is followed by the
    separating space, with no annotation. *)
Theorem tag_iff_label_not_none labels_dict preds subtokens_mask i query
    output :
  label_query labels_dict preds subtokens_mask i query = Ok output →
  ∃ pred labs,
    select_pred preds subtokens_mask i = Ok pred
    ∧ word_labels labels_dict pred 0 (length (split (strip query))) = Ok labs
    ∧ ∀ j w label,
        split (strip query) !! j = Some w → labs !! j = Some label →
        ∃ post,
          output = render (take j (zip (split (strip query)) labs)) ++ w ++ post
          ∧ post = annotation label ++ py " "
                   ++ render (drop (S j) (zip (split (strip query)) labs))
          ∧ (tag_follows post ↔ label ≠ NONE_LABEL)
          ∧ (label = NONE_LABEL → head post = Some 32%N).
Proof.
  intros H. apply label_query_Ok in H as (pred & labs & Hpred & Hlabs & ->).
  exists pred, labs. split; [done |]. split; [done |].
  intros j w label Hw Hl. eexists. split; [| split; [reflexivity |]].
  - assert (zip (split (strip query)) labs !! j = Some (w, label)) as Hz.
    { apply lookup_zip_with_Some. by exists w, label. }
    rewrite <- (take_drop_middle _ _ _ Hz) at 1.
    by rewrite render_app, render_cons.
  - unfold annotation, tag_follows.
    destruct (decide (label ≠ NONE_LABEL)) as [Hne|Heq]; split.
    + split; [done |]. rewrite <- !app_assoc. by eexists _, _.
    + done.
    + split; [intros (tag & rest & [=]) | done].
    + done.
Qed.

Lemma tag_iff_label_not_none_witness :
  ∃ pred labs,
    select_pred sample_preds sample_mask 0 = Ok pred
    ∧ word_labels iob_labels pred 0 (length (split (strip sample_query))) = Ok labs
    ∧ ∀ j w label,
        split (strip sample_query) !! j = Some w → labs !! j = Some label →
        ∃ post,
          py "Oral contraceptives protect against ovarian[B] cancer[I] in general , but it is not known whether they also protect against hereditary forms . "
          = render (take j (zip (split (strip sample_query)) labs)) ++ w ++ post
          ∧ post = annotation label ++ py " "
                   ++ render (drop (S j) (zip (split (strip sample_query)) labs))
          ∧ (tag_follows post ↔ label ≠ NONE_LABEL)
          ∧ (label = NONE_LABEL → head post = Some 32%N).
Proof.
  apply (tag_iff_label_not_none iob_labels sample_preds sample_mask 0 sample_query).
  vm_compute. reflexivity.
Defined.

(** C9: if every label selected for a query equals ["O"], the printed
    result [output.strip()] is the query's words joined by single spaces,
    [' '.join(query.strip().split())]. *)
Theorem all_outside_is_identity labels_dict preds subtokens_mask i query
    pred labs :
  select_pred preds subtokens_mask i = Ok pred →
  word_labels labels_dict pred 0 (length (split (strip query))) = Ok labs →
  Forall (λ label, label = NONE_LABEL) labs →
  ∃ output,
    label_query labels_dict preds subtokens_mask i query = Ok output
    ∧ strip output = join (py " ") (split (strip query)).
Proof.
  intros Hpred Hlabs Hall. exists (render (zip (split (strip query)) labs)).
  split; [apply label_query_Ok; by exists pred, labs |].
  apply word_labels_Ok in Hlabs as [Hlen _].
  rewrite render_none by done. apply strip_spaced, split_words.
Qed.

Lemma all_outside_is_identity_witness :
  ∃ output,
    label_query iob_labels [[0; 0; 0; 0; 0]%Z] [[0; 1; 1; 1; 0]%Q] 0
      (py "  it is  known ") = Ok output
    ∧ strip output = join (py " ") (split (strip (py "  it is  known "))).
Proof.
  apply (all_outside_is_identity iob_labels [[0; 0; 0; 0; 0]%Z]
           [[0; 1; 1; 1; 0]%Q] 0 (py "  it is  known ") [0; 0; 0]%Z
           [py "O"; py "O"; py "O"]).
  - vm_compute. reflexivity.
  - vm_compute. reflexivity.
  - compute_done.
Defined.

(** ** Boolean-mask selection *)

Lemma gt_half_spec m : gt_half m = true ↔ (1 # 2 < m)%Q.
Proof.
  unfold gt_half. rewrite negb_true_iff, <- not_true_iff_false, Qle_bool_iff.
  split; [apply Qnot_le_lt | apply Qlt_not_le].
Qed.

Lemma take_where_length {A} (a : list A) : ∀ bits,
  length bits = length a →
  length (take_where a bits) = length (filter (λ b, b = true) bits).
Proof.
  induction a as [|x a IH]; intros [|b bits] Hlen; try done.
  simpl in Hlen. destruct b.
  - rewrite filter_cons_True by done. cbn [take_where length].
    rewrite IH; [done | lia].
  - rewrite filter_cons_False by done. cbn [take_where]. apply IH. lia.
Qed.

Lemma take_where_elem_of {A} (a : list A) x : ∀ bits,
  x ∈ take_where a bits → x ∈ a.
Proof.
  induction a as [|y a IH]; intros [|b bits] Hin; simpl in Hin;
    try by apply elem_of_nil in Hin.
  destruct b.
  - apply elem_of_cons in Hin as [->|Hin]; [by left | right; by eapply IH].
  - right. by eapply IH.
Qed.

(** The number of positions of a mask row whose value exceeds 0.5. *)
Lemma select_pred_length preds subtokens_mask i pred mask :
  select_pred preds subtokens_mask i = Ok pred →
  subtokens_mask !! i = Some mask →
  length pred = length (filter (λ b, b = true) (gt_half <$> mask)).
Proof.
  intros H Hm. apply select_pred_Ok in H as (row & mask' & Hr & Hm' & Hlen & ->).
  simplify_eq. apply take_where_length. by rewrite length_fmap.
Qed.

(** C8, the claim as stated fails: with more words than selected
    positions the loop may stop earlier, on a class id that is no key of
    [labels_dict], and then the exception is [KeyError]. *)
Lemma missing_label_raises_KeyError :
  length (filter (λ b, b = true) (gt_half <$> [1%Q]))
    < length (split (strip (py "a b")))
  ∧ label_query {[ 0%Z := py "O" ]} [[1%Z]] [[1%Q]] 0 (py "a b")
    = Raise KeyError.
Proof. split; [vm_compute; lia | by vm_compute]. Qed.

(** C8 (amended): the loop completes only if the positions of
    [subtokens_mask[i]] above 0.5 are at least as many as the words of the
    query; with more words than such positions it raises, and the
    exception is the [IndexError] of the access [pred[j]] exactly when
    every selected class id (every entry of [pred]) is a key of
    [labels_dict]; otherwise the lookup of a selected id that is no key
    raises [KeyError] first. *)
Theorem label_query_needs_enough_positions labels_dict preds subtokens_mask
    i query row mask :
  preds !! i = Some row →
  subtokens_mask !! i = Some mask →
  length mask = length row →
  let selected := length (filter (λ b, b = true) (gt_half <$> mask)) in
  let words := split (strip query) in
  (∀ output, label_query labels_dict preds subtokens_mask i query = Ok output →
     length words ≤ selected)
  ∧ (selected < length words →
     ∃ e, label_query labels_dict preds subtokens_mask i query = Raise e
          ∧ (e = IndexError ∨ e = KeyError)
          ∧ (e = IndexError ↔
             ∀ p, p ∈ take_where row (gt_half <$> mask) →
                  is_Some (labels_dict !! p))).
Proof.
  intros Hrow Hmask Hlen selected words.
  assert (select_pred preds subtokens_mask i
          = Ok (take_where row (gt_half <$> mask))) as Hpred.
  { apply select_pred_Ok. by exists row, mask. }
  assert (length (take_where row (gt_half <$> mask)) = selected) as Hsel.
  { by eapply select_pred_length. }
  split.
  - intros output H. apply label_query_Ok in H as (pred & labs & Hp & Hl & _).
    rewrite Hpred in Hp. injection Hp as <-.
    apply word_labels_Ok in Hl as [_ Hk]. destruct (decide (length words ≤ selected)); [done |].
    destruct (Hk selected) as (p & _ & Hp & _); [fold words; lia |].
    apply lookup_lt_Some in Hp. simpl in Hp. lia.
  - intros Hshort. rewrite label_query_spec, Hpred. simpl. fold words.
    destruct (word_labels labels_dict (take_where row (gt_half <$> mask)) 0
                (length words)) as [labs|e] eqn:Hwl.
    + apply word_labels_Ok in Hwl as [_ Hk].
      destruct (Hk selected) as (p & _ & Hp & _); [lia |].
      apply lookup_lt_Some in Hp. simpl in Hp. lia.
    + exists e. split; [done |].
      apply word_labels_Raise in Hwl as (k & _ & Hbefore & Hat).
      simpl in Hat, Hbefore.
      destruct Hat as [[Hnone ->] | (p & Hp & Hnone & ->)].
      * split; [by left |]. split; [intros _ | done].
        intros p Hin. apply list_elem_of_lookup in Hin as [k' Hk'].
        apply lookup_ge_None in Hnone. apply lookup_lt_Some in Hk' as Hlt.
        destruct (Hbefore k') as (p' & Hp' & Hsome); [lia |]. by simplify_eq.
      * split; [by right |]. split; [done |]. intros Hkeys.
        destruct (Hkeys p) as [label Hl]; [| congruence].
        by eapply list_elem_of_lookup_2.
Qed.

Lemma label_query_needs_enough_positions_witness :
  (∀ output, label_query {[ 0%Z := py "O" ]} [[7; 0]%Z] [[0; 1]%Q] 0 (py "a b")
             = Ok output → 2 ≤ 1)
  ∧ (1 < 2 →
     ∃ e, label_query {[ 0%Z := py "O" ]} [[7; 0]%Z] [[0; 1]%Q] 0 (py "a b")
          = Raise e
          ∧ (e = IndexError ∨ e = KeyError)
          ∧ (e = IndexError ↔
             ∀ p, p ∈ take_where [7; 0]%Z (gt_half <$> [0; 1]%Q) →
                  is_Some (({[ 0%Z := py "O" ]} : gmap Z str) !! p))).
Proof.
  apply (label_query_needs_enough_positions {[ 0%Z := py "O" ]} [[7; 0]%Z]
           [[0; 1]%Q] 0 (py "a b") [7; 0]%Z [0; 1]%Q);
    reflexivity.
Defined.

(** A class id at a position that is not selected is never looked up:
    here 7 is no key, the one selected id is, and the exception is the
    [IndexError] of the second word. *)
Example unselected_id_is_not_looked_up :
  label_query {[ 0%Z := py "O" ]} [[7; 0]%Z] [[0; 1]%Q] 0 (py "a b")
  = Raise IndexError.
Proof. by vm_compute. Qed.

(** ** The class ids are arg-maxima of the logits *)

Lemma argmax_from_max full : ∀ xs mp best i,
  full !! best = Some mp → best < i → drop i full = xs →
  (∀ k y, k < i → full !! k = Some y →
     (y <= mp)%Q ∧ (k < best → (y < mp)%Q)) →
  ∃ x, full !! argmax_from mp best i xs = Some x
    ∧ ∀ k y, full !! k = Some y →
        (y <= x)%Q ∧ (k < argmax_from mp best i xs → (y < x)%Q).
Proof.
  induction xs as [|x xs IH]; intros mp best i Hbest Hlt Hdrop Hinv.
  - exists mp. split; [done |]. intros k y Hk. apply Hinv; [| done].
    apply drop_nil_inv in Hdrop. apply lookup_lt_Some in Hk. lia.
  - assert (full !! i = Some x) as Hi.
    { rewrite <- (Nat.add_0_r i), <- lookup_drop, Hdrop. done. }
    assert (drop (S i) full = xs) as Hdrop'.
    { replace (S i) with (i + 1) by lia. by rewrite <- drop_drop, Hdrop. }
    simpl. destruct (Qle_bool x mp) eqn:Hle.
    + apply IH; [done | lia | done |]. intros k y Hk Hy.
      destruct (decide (k = i)) as [->|Hne].
      * simplify_eq. split; [by apply Qle_bool_iff | lia].
      * apply Hinv; [lia | done].
    + assert (mp < x)%Q as Hgt.
      { apply Qnot_le_lt. intros Hc. apply Qle_bool_iff in Hc. congruence. }
      apply IH; [done | lia | done |]. intros k y Hk Hy.
      destruct (decide (k = i)) as [->|Hne].
      * simplify_eq. split; [apply Qle_refl | lia].
      * destruct (Hinv k y) as [Hym _]; [lia | done |].
        split; [| intros _]; [apply Qlt_le_weak |]; by eapply Qle_lt_trans.
Qed.

(** [np.argmax] returns the first index that holds the largest value. *)
Lemma argmax_max xs c :
  argmax xs = Ok c →
  (0 ≤ c)%Z
  ∧ ∃ x, xs !! Z.to_nat c = Some x
      ∧ ∀ k y, xs !! k = Some y →
          (y <= x)%Q ∧ (k < Z.to_nat c → (y < x)%Q).
Proof.
  destruct xs as [|x0 xs]; [done |]. intros [= <-]. split; [lia |].
  rewrite Nat2Z.id. apply argmax_from_max; [done | lia | done |].
  intros k y Hk Hy. assert (k = 0) as -> by lia. simplify_eq/=.
  split; [apply Qle_refl | lia].
Qed.

Lemma traverse_Ok {A B} (f : A → result B) l : ∀ ys,
  traverse f l = Ok ys ↔ Forall2 (λ x y, f x = Ok y) l ys.
Proof.
  induction l as [|x l IH]; intros ys; simpl.
  - split; [intros [= <-]; constructor | by inversion 1].
  - split.
    + intros H. destruct (f x) as [y|] eqn:Hy; [simpl in H | done].
      destruct (traverse f l) as [ys'|] eqn:Hys; [simpl in H | done].
      injection H as <-. constructor; [done | by apply IH].
    + inversion 1 as [|? y ? ys' Hy Hys]; subst. rewrite Hy. simpl.
      apply IH in Hys. by rewrite Hys.
Qed.

Lemma argmax_axis2_lookup logits preds i row k c :
  argmax_axis2 logits = Ok preds →
  preds !! i = Some row → row !! k = Some c →
  ∃ scores, logits !! i ≫= (.!! k) = Some scores ∧ argmax scores = Ok c.
Proof.
  intros H Hrow Hc. apply traverse_Ok in H.
  destruct (Forall2_lookup_r _ _ _ _ _ H Hrow) as (lrow & Hlrow & Hr).
  apply traverse_Ok in Hr.
  destruct (Forall2_lookup_r _ _ _ _ _ Hr Hc) as (scores & Hs & Ha).
  exists scores. by rewrite Hlrow.
Qed.

Lemma concatenate_Ok {A S} `{EqDecision S} (shape : A → S) lists rows :
  concatenate shape lists = Ok rows →
  rows = concat lists ∧ lists ≠ []
  ∧ ∀ r1 r2, r1 ∈ rows → r2 ∈ rows → shape r1 = shape r2.
Proof.
  unfold concatenate. destruct lists as [|l lists]; [done |].
  generalize (concat (l :: lists)). intros all.
  destruct (same_shape shape all) eqn:Hs; [| done].
  intros [= <-]. split; [done |]. split; [done |].
  unfold same_shape in Hs. destruct all as [|r rows].
  { intros r1 r2 Hr1. by apply elem_of_nil in Hr1. }
  assert (∀ r', r' ∈ r :: rows → shape r' = shape r) as Hall.
  { intros r' [->|Hin]%elem_of_cons; [done |].
    rewrite forallb_forall in Hs. apply list_elem_of_In, Hs in Hin.
    by apply bool_decide_eq_true in Hin. }
  intros r1 r2 H1 H2. by rewrite (Hall r1), (Hall r2).
Qed.

Lemma gather_Ok tensors preds subtokens_mask :
  gather tensors = Ok (preds, subtokens_mask) →
  concatenate (fmap (M:=list) length) tensors.1 = Ok (concat tensors.1)
  ∧ concatenate length tensors.2 = Ok subtokens_mask
  ∧ subtokens_mask = concat tensors.2
  ∧ argmax_axis2 (concat tensors.1) = Ok preds.
Proof.
  unfold gather. intros H.
  apply bind_Ok in H as (logits & Hl & H).
  apply bind_Ok in H as (mask & Hm & H).
  apply bind_Ok in H as (preds' & Hp & [= <- <-]).
  destruct (concatenate_Ok _ _ _ Hl) as [-> _].
  destruct (concatenate_Ok _ _ _ Hm) as [Hmeq _]. by rewrite <- Hmeq.
Qed.

(** C3: for the [i]-th query, the label string attached to its [j]-th
    word is [labels_dict[pred[j]]], where [pred] is [preds[i]] restricted to
    the positions whose [subtokens_mask] value exceeds 0.5 and [preds] is the
    arg-maximum over the class axis of the concatenated logits. *)
Theorem labels_follow_argmax labels_dict tensors preds subtokens_mask i
    query output :
  gather tensors = Ok (preds, subtokens_mask) →
  label_query labels_dict preds subtokens_mask i query = Ok output →
  ∃ row mask labs,
    subtokens_mask = concat tensors.2
    ∧ preds !! i = Some row ∧ subtokens_mask !! i = Some mask
    ∧ (∀ k c, row !! k = Some c →
         ∃ scores x,
           concat tensors.1 !! i ≫= (.!! k) = Some scores
           ∧ (0 ≤ c)%Z ∧ scores !! Z.to_nat c = Some x
           ∧ ∀ k' y, scores !! k' = Some y →
               (y <= x)%Q ∧ (k' < Z.to_nat c → (y < x)%Q))
    ∧ length labs = length (split (strip query))
    ∧ output = render (zip (split (strip query)) labs)
    ∧ ∀ j label, labs !! j = Some label →
        ∃ p, take_where row ((λ m, gt_half m) <$> mask) !! j = Some p
             ∧ labels_dict !! p = Some label.
Proof.
  intros Hg H. apply gather_Ok in Hg as (_ & _ & Hmask & Hpreds).
  apply label_query_Ok in H as (pred & labs & Hpred & Hlabs & ->).
  apply select_pred_Ok in Hpred as (row & mask & Hrow & Hm & _ & ->).
  exists row, mask, labs. split; [done |]. split; [done |]. split; [done |].
  split.
  { intros k c Hc.
    destruct (argmax_axis2_lookup _ _ _ _ _ _ Hpreds Hrow Hc) as (scores & Hs & Ha).
    apply argmax_max in Ha as (Hc0 & x & Hx & Hmax). by exists scores, x. }
  apply word_labels_Ok in Hlabs as [Hlen Hk]. split; [done |]. split; [done |].
  intros j label Hj.
  destruct (Hk j) as (p & label' & Hp & Hl & Hl').
  { rewrite <- Hlen. by eapply lookup_lt_Some. }
  exists p. simpl in Hp. by simplify_eq.
Qed.

Lemma labels_follow_argmax_witness :
  ∃ row mask labs,
    [[0; 1; 1; 0]%Q] = concat [[[0; 1; 1; 0]%Q]]
    ∧ [[0; 1; 2; 0]%Z] !! 0 = Some row ∧ [[0; 1; 1; 0]%Q] !! 0 = Some mask
    ∧ (∀ k c, row !! k = Some c →
         ∃ scores x,
           concat [[[[3; 1; 0]; [0; 2; 1]; [0; 1; 5]; [1; 1; 0]]%Q]] !! 0
             ≫= (.!! k) = Some scores
           ∧ (0 ≤ c)%Z ∧ scores !! Z.to_nat c = Some x
           ∧ ∀ k' y, scores !! k' = Some y →
               (y <= x)%Q ∧ (k' < Z.to_nat c → (y < x)%Q))
    ∧ length labs = length (split (strip (py "ovarian cancer")))
    ∧ py "ovarian[B] cancer[I] "
      = render (zip (split (strip (py "ovarian cancer"))) labs)
    ∧ ∀ j label, labs !! j = Some label →
        ∃ p, take_where row ((λ m, gt_half m) <$> mask) !! j = Some p
             ∧ iob_labels !! p = Some label.
Proof.
  apply (labels_follow_argmax iob_labels
           ([[[[3; 1; 0]; [0; 2; 1]; [0; 1; 5]; [1; 1; 0]]%Q]],
            [[[0; 1; 1; 0]%Q]])
           [[0; 1; 2; 0]%Z] [[0; 1; 1; 0]%Q] 0 (py "ovarian cancer")).
  - vm_compute. reflexivity.
  - vm_compute. reflexivity.
Defined.

(** ** Exceptions leave the cells as they were raised *)

Lemma label_queries_cons blue green labels_dict preds subtokens_mask i query
    queries log :
  label_queries blue green labels_dict preds subtokens_mask i
    (query :: queries) log =
  match label_query labels_dict preds subtokens_mask i query with
  | Ok output =>
      label_queries blue green labels_dict preds subtokens_mask (S i) queries
        ((log ++ [py "Query:" ++ newline ++ query])
         ++ [blue ++ newline ++ py "Labeled Result:" ++ newline
             ++ strip output ++ newline ++ green])
  | Raise e => (log ++ [py "Query:" ++ newline ++ query], Raise e)
  end.
Proof.
  simpl. unfold mbind, io_bind, print, lift. simpl.
  by destruct (label_query labels_dict preds subtokens_mask i query).
Qed.

Lemma label_queries_Raise blue green labels_dict preds subtokens_mask queries :
  ∀ i log e,
  (label_queries blue green labels_dict preds subtokens_mask i queries log).2
    = Raise e ↔
  ∃ k query,
    queries !! k = Some query
    ∧ label_query labels_dict preds subtokens_mask (i + k) query = Raise e
    ∧ ∀ k' query', k' < k → queries !! k' = Some query' →
        ∃ output,
          label_query labels_dict preds subtokens_mask (i + k') query' = Ok output.
Proof.
  induction queries as [|query queries IH]; intros i log e.
  - simpl. split; [done | by intros (k & q & ? & _)].
  - rewrite label_queries_cons.
    destruct (label_query labels_dict preds subtokens_mask i query)
      as [output|e'] eqn:Hq.
    + rewrite IH. split.
      * intros (k & q & Hk & Hr & Hbefore). exists (S k), q.
        rewrite Nat.add_succ_r. split; [done |]. split; [done |].
        intros [|k'] q' Hlt Hq'.
        -- rewrite Nat.add_0_r. simplify_eq/=. by exists output.
        -- rewrite Nat.add_succ_r. apply Hbefore; [lia | done].
      * intros (k & q & Hk & Hr & Hbefore). destruct k as [|k].
        { rewrite Nat.add_0_r in Hr. simplify_eq/=. congruence. }
        exists k, q. rewrite Nat.add_succ_r in Hr.
        split; [done |]. split; [done |]. intros k' q' Hlt Hq'.
        destruct (Hbefore (S k') q') as [o Ho]; [lia | done |].
        exists o. by rewrite Nat.add_succ_r in Ho.
    + simpl. split.
      * intros [= ->]. exists 0, query. rewrite Nat.add_0_r.
        split; [done |]. split; [done |]. intros; lia.
      * intros (k & q & Hk & Hr & Hbefore). destruct k as [|k].
        { rewrite Nat.add_0_r in Hr. simplify_eq/=. congruence. }
        destruct (Hbefore 0 query) as [o Ho]; [lia | done |].
        rewrite Nat.add_0_r in Ho. congruence.
Qed.

(** C5: the cells install no handler.  The training cell ends with
    exception [e] exactly when the first of its framework calls that fails
    raised that same [e]; the inference cells end with [e] exactly when
    the first step that fails (the framework's [nf.infer], gathering the
    tensors, the framework's [get_vocab], or the labeling of some query)
    raised that same [e]. *)
Theorem exceptions_propagate_unchanged (reset_trainer nf_train : io unit)
    (nf_infer : io infer_tensors) (get_vocab : str → io (gmap Z str))
    (blue green : str) (queries : list str) (log : list str) (e : exn) :
  ((training reset_trainer nf_train log).2 = Raise e ↔
   (reset_trainer log).2 = Raise e
   ∨ ∃ log1, reset_trainer log = (log1, Ok ()) ∧ (nf_train log1).2 = Raise e)
  ∧
  ((inference nf_infer get_vocab blue green queries log).2 = Raise e ↔
   (nf_infer log).2 = Raise e
   ∨ ∃ tensors log1,
       nf_infer log = (log1, Ok tensors)
       ∧ (gather tensors = Raise e
          ∨ ∃ preds subtokens_mask,
              gather tensors = Ok (preds, subtokens_mask)
              ∧ ((get_vocab (DATA_DIR ++ py "label_ids.csv") log1).2 = Raise e
                 ∨ ∃ labels_dict log2,
                     get_vocab (DATA_DIR ++ py "label_ids.csv") log1
                       = (log2, Ok labels_dict)
                     ∧ ∃ k query,
                         queries !! k = Some query
                         ∧ label_query labels_dict preds subtokens_mask k query
                           = Raise e
                         ∧ ∀ k' query', k' < k → queries !! k' = Some query' →
                             ∃ output,
                               label_query labels_dict preds subtokens_mask
                                 k' query' = Ok output))).
Proof.
  split.
  { unfold training, mbind, io_bind.
    destruct (reset_trainer log) as [log1 [[]|e1]] eqn:Hr; simpl.
    - split; [intros H; right; by exists log1 |].
      by intros [[=] | (l & [= <-] & H)].
    - split; [intros [= ->]; by left |].
      by intros [[= ->] | (l & [=] & _)]. }
  unfold inference, mbind, io_bind, lift.
  generalize (DATA_DIR ++ py "label_ids.csv"). intros path.
  destruct (nf_infer log) as [log1 [tensors|e1]] eqn:Hinf; simpl.
  2:{ split; [intros [= ->]; by left |].
      by intros [[= ->] | (? & ? & [=] & _)]. }
  destruct (gather tensors) as [[preds subtokens_mask]|e2] eqn:Hg; simpl.
  2:{ split.
      - intros [= ->]. right. exists tensors, log1. split; [done |]. by left.
      - intros [[=] | (t & l & [= <- <-] & [H | (? & ? & H & _)])]; congruence. }
  destruct (get_vocab path log1) as [log2 [labels_dict|e3]] eqn:Hv; simpl.
  2:{ split.
      - intros [= ->]. right. exists tensors, log1. split; [done |]. right.
        exists preds, subtokens_mask. split; [done |]. left. by rewrite Hv.
      - intros [[=] | (t & l & [= <- <-] & [H | (p & m & Hpm & [H | H])])].
        + congruence.
        + rewrite Hv in H. by injection H as ->.
        + destruct H as (? & ? & H & _). congruence. }
  rewrite label_queries_Raise. simpl. split.
  - intros H. right. exists tensors, log1. split; [done |]. right.
    exists preds, subtokens_mask. split; [done |]. right.
    by exists labels_dict, log2.
  - intros [[=] | (t & l & [= <- <-] & [H | (p & m & Hpm & [H | H])])].
    + congruence.
    + rewrite Hv in H. done.
    + destruct H as (ld & l2 & Hv' & H). rewrite Hv in Hv'.
      injection Hv' as <- <-. rewrite Hg in Hpm. by injection Hpm as <- <-.
Qed.

(** ** Configuration and data layers *)

(** C4: each of the four dictionaries keyed by the model type has a value
    for ['biobert'] and for ['biomegatron']; ['biobert'] names the base
    model ['bert-base-cased'] and keeps case, ['biomegatron'] names
    ['megatron-bert-uncased'] and lowers case; the checkpoint and config
    paths start with [CHECKPOINTS_PATH]. *)
Theorem model_config_defined :
  Forall (λ model_type,
            is_Some (PRETRAINED_MODEL_NAME !! model_type)
            ∧ is_Some (DO_LOWER_CASE !! model_type)
            ∧ (∃ path, NGC_CHECKPOINT !! model_type = Some path
                       ∧ CHECKPOINTS_PATH `prefix_of` path)
            ∧ (∃ path, NGC_CONFIG !! model_type = Some path
                       ∧ CHECKPOINTS_PATH `prefix_of` path))
         [py "biobert"; py "biomegatron"]
  ∧ PRETRAINED_MODEL_NAME !! py "biobert" = Some (py "bert-base-cased")
  ∧ DO_LOWER_CASE !! py "biobert" = Some false
  ∧ PRETRAINED_MODEL_NAME !! py "biomegatron" = Some (py "megatron-bert-uncased")
  ∧ DO_LOWER_CASE !! py "biomegatron" = Some true.
Proof.
  split; [| by vm_compute].
  repeat apply Forall_cons_2; [| | apply Forall_nil_2].
  - split; [by eexists; vm_compute |]. split; [by eexists; vm_compute |].
    split.
    + exists (CHECKPOINTS_PATH ++ py "biobert/BERT.pt").
      split; [by vm_compute | by eexists].
    + exists (CHECKPOINTS_PATH ++ py "biobert/bert_config.json").
      split; [by vm_compute | by eexists].
  - split; [by eexists; vm_compute |]. split; [by eexists; vm_compute |].
    split.
    + exists (CHECKPOINTS_PATH ++ py "biomegatron/MegatronBERT.pt").
      split; [by vm_compute | by eexists].
    + exists (CHECKPOINTS_PATH ++ py "biomegatron/config.json").
      split; [by vm_compute | by eexists].
Qed.

Lemma dl_train_Ok model_type dl :
  dl_train model_type = Ok dl →
  ∃ tok, tokenizer model_type = Ok tok
    ∧ dl = BertTokenClassificationDataLayer
             (os_path_join DATA_DIR (py "text_train.txt"))
             (os_path_join DATA_DIR (py "labels_train.txt"))
             tok MAX_SEQ_LEN dl_train_kwargs.
Proof.
  unfold dl_train. intros H. apply bind_Ok in H as (tok & Htok & [= <-]).
  by exists tok.
Qed.

(** C6: the training data layer is built without a [pad_label] argument,
    so its pad label is the default ['O'], which is [NONE_LABEL], the IOB
    outside symbol; every padded position of an example holds the numeric
    id of that label. *)
Theorem pad_label_is_outside (model_type : str)
    (dl : TokenClassificationDataLayer) (ids_of : gmap str Z) (outside : Z)
    (ids : list Z) (pos : nat) :
  dl_train model_type = Ok dl →
  ids_of !! py "O" = Some outside →
  length ids ≤ pos < MAX_SEQ_LEN →
  NONE_LABEL = py "O"
  ∧ kw_pad_label dl_train_kwargs = None
  ∧ pad_label dl = NONE_LABEL
  ∧ ∃ padded, padded_label_ids dl ids_of ids = Ok padded
      ∧ length padded = MAX_SEQ_LEN
      ∧ padded !! pos = Some outside.
Proof.
  intros Hdl Hout [Hlo Hhi].
  apply dl_train_Ok in Hdl as (tok & _ & ->).
  split; [done |]. split; [done |]. split; [done |].
  unfold padded_label_ids, dict_getitem. cbn [pad_label max_seq_length
    BertTokenClassificationDataLayer dl_train_kwargs kw_pad_label default].
  rewrite Hout. simpl. eexists. split; [reflexivity |].
  rewrite length_app, length_take, length_replicate. split; [lia |].
  rewrite lookup_app_r by (rewrite length_take; lia).
  apply lookup_replicate_2. rewrite length_take. lia.
Qed.

Lemma pad_label_is_outside_witness :
  NONE_LABEL = py "O"
  ∧ kw_pad_label dl_train_kwargs = None
  ∧ pad_label
      (BertTokenClassificationDataLayer
         (py "/dli/task/data/NCBI_ner-3/text_train.txt")
         (py "/dli/task/data/NCBI_ner-3/labels_train.txt")
         {| tokenizer_name := py "nemobert";
            pretrained_model_name := py "bert-base-cased";
            do_lower_case := false |}
         128 dl_train_kwargs) = NONE_LABEL
  ∧ ∃ padded,
      padded_label_ids
        (BertTokenClassificationDataLayer
           (py "/dli/task/data/NCBI_ner-3/text_train.txt")
           (py "/dli/task/data/NCBI_ner-3/labels_train.txt")
           {| tokenizer_name := py "nemobert";
              pretrained_model_name := py "bert-base-cased";
              do_lower_case := false |}
           128 dl_train_kwargs)
        {[ py "O" := 0%Z; py "B" := 1%Z; py "I" := 2%Z ]} [0; 1; 2; 0]%Z
      = Ok padded
      ∧ length padded = MAX_SEQ_LEN
      ∧ padded !! 100 = Some 0%Z.
Proof.
  apply (pad_label_is_outside MODEL_TYPE _
           {[ py "O" := 0%Z; py "B" := 1%Z; py "I" := 2%Z ]} 0%Z
           [0; 1; 2; 0]%Z 100).
  - vm_compute. reflexivity.
  - vm_compute. reflexivity.
  - vm_compute. lia.
Defined.

(** C7: the training data layer reads two files, the sentence file
    [os.path.join(DATA_DIR, 'text_train.txt')] and the label file
    [os.path.join(DATA_DIR, 'labels_train.txt')]; the inference data layer
    is given the in-memory list [queries] and no file. *)
Theorem training_reads_two_files (model_type : str)
    (dl_tr : TokenClassificationDataLayer)
    (dl_te : TokenClassificationInferDataLayer) (queries : list str) :
  dl_train model_type = Ok dl_tr →
  dl_test model_type queries = Ok dl_te →
  text_file dl_tr = os_path_join DATA_DIR (py "text_train.txt")
  ∧ text_file dl_tr = py "/dli/task/data/NCBI_ner-3/text_train.txt"
  ∧ label_file dl_tr = os_path_join DATA_DIR (py "labels_train.txt")
  ∧ label_file dl_tr = py "/dli/task/data/NCBI_ner-3/labels_train.txt"
  ∧ infer_queries dl_te = queries
  ∧ infer_tokenizer dl_te = dl_tokenizer dl_tr.
Proof.
  intros Htr Hte. apply dl_train_Ok in Htr as (tok & Htok & ->).
  unfold dl_test in Hte. rewrite Htok in Hte. injection Hte as <-.
  by repeat split.
Qed.

Lemma training_reads_two_files_witness :
  ∃ dl_tr dl_te,
    dl_train MODEL_TYPE = Ok dl_tr
    ∧ dl_test MODEL_TYPE [sample_query] = Ok dl_te
    ∧ text_file dl_tr = os_path_join DATA_DIR (py "text_train.txt")
    ∧ text_file dl_tr = py "/dli/task/data/NCBI_ner-3/text_train.txt"
    ∧ label_file dl_tr = os_path_join DATA_DIR (py "labels_train.txt")
    ∧ label_file dl_tr = py "/dli/task/data/NCBI_ner-3/labels_train.txt"
    ∧ infer_queries dl_te = [sample_query]
    ∧ infer_tokenizer dl_te = dl_tokenizer dl_tr.
Proof.
  eexists _, _. split; [vm_compute; reflexivity |].
  split; [vm_compute; reflexivity |].
  apply (training_reads_two_files MODEL_TYPE _ _ [sample_query]);
    vm_compute; reflexivity.
Defined.

(** * Further properties of the code *)

(** ** Whitespace *)

Lemma lstrip_split s :
  ∃ t, s = t ++ lstrip s ∧ Forall (λ c, isspace c = true) t.
Proof.
  induction s as [|c s (t & IH & Ht)]; simpl.
  - exists []. split; [done | apply Forall_nil_2].
  - destruct (isspace c) eqn:Hc.
    + exists (c :: t). split; [simpl; by rewrite <- IH | by apply Forall_cons_2].
    + exists []. split; [done | apply Forall_nil_2].
Qed.

Lemma rstrip_split s :
  ∃ t, s = rstrip s ++ t ∧ Forall (λ c, isspace c = true) t.
Proof.
  destruct (lstrip_split (reverse s)) as (t & Hs & Ht).
  exists (reverse t). split.
  - unfold rstrip. rewrite <- reverse_app, <- Hs. by rewrite reverse_involutive.
  - apply Forall_forall. intros c Hc. rewrite elem_of_reverse in Hc.
    by apply (proj1 (Forall_forall _ _) Ht).
Qed.

Lemma split_from_blank t : Forall (λ c, isspace c = true) t →
  ∀ cur, split_from cur t = match cur with [] => [] | _ => [cur] end.
Proof.
  induction 1 as [|c t Hc _ IH]; intros cur; [done |].
  simpl. rewrite Hc, IH. by destruct cur.
Qed.

Lemma split_from_trailing t : Forall (λ c, isspace c = true) t →
  ∀ u cur, split_from cur (u ++ t) = split_from cur u.
Proof.
  intros Ht u. induction u as [|c u IH]; intros cur.
  - by rewrite split_from_blank.
  - simpl. destruct (isspace c); [| apply IH]. rewrite IH. done.
Qed.

Lemma split_lstrip s : split (lstrip s) = split s.
Proof.
  induction s as [|c s IH]; [done |]. simpl.
  destruct (isspace c) eqn:Hc; [| done].
  rewrite IH. unfold split. simpl. by rewrite Hc.
Qed.

(** X1: [query.strip().split()] is [query.split()]: the call of [strip]
    before [split] changes nothing. *)
Theorem strip_before_split_is_redundant (s : str) :
  split (strip s) = split s.
Proof.
  unfold strip. destruct (rstrip_split (lstrip s)) as (t & Hs & Ht).
  transitivity (split (lstrip s)); [| apply split_lstrip].
  unfold split. rewrite <- (split_from_trailing t Ht (rstrip (lstrip s)) []).
  by rewrite <- Hs.
Qed.

Lemma split_nil_blank s : split s = [] ↔ Forall (λ c, isspace c = true) s.
Proof.
  split.
  - unfold split. assert (∀ cur, split_from cur s = [] →
      cur = [] ∧ Forall (λ c, isspace c = true) s) as H.
    { induction s as [|c s IH]; intros cur; simpl.
      - destruct cur; [| done]. intros _. split; [done | apply Forall_nil_2].
      - destruct (isspace c) eqn:Hc.
        + destruct cur; [| done]. intros H. apply IH in H as [_ H].
          split; [done | by apply Forall_cons_2].
        + intros H. apply IH in H as [H _]. by destruct cur. }
    intros Hs. by apply H in Hs as [_ ?].
  - intros H. unfold split. by rewrite split_from_blank.
Qed.

(** ** The printed result *)

Lemma render_tagged words : ∀ labs,
  render (zip words labs) = spaced (zip_with tagged words labs).
Proof.
  induction words as [|w words IH]; intros [|label labs]; try done.
  change (zip (w :: words) (label :: labs)) with ((w, label) :: zip words labs).
  change (zip_with tagged (w :: words) (label :: labs))
    with (tagged w label :: zip_with tagged words labs).
  rewrite render_cons, spaced_cons, IH. unfold tagged.
  by rewrite <- !app_assoc.
Qed.

Lemma annotation_cases label :
  annotation label = [] ∨ annotation label = 91%N :: label ++ [93%N].
Proof.
  unfold annotation. destruct (decide (label ≠ NONE_LABEL)); [by right | by left].
Qed.

Lemma tagged_trimmed w label : is_word w → trimmed (tagged w label).
Proof.
  intros [Hne Hw]. unfold tagged. split.
  - destruct Hw as [|c w Hc _]; [done |]. by exists c, (w ++ annotation label).
  - destruct (annotation_cases label) as [-> | ->].
    + rewrite app_nil_r. destruct (reverse w) as [|c r] eqn:Hr.
      * apply (f_equal reverse) in Hr. by rewrite reverse_involutive in Hr.
      * apply (f_equal reverse) in Hr.
        rewrite reverse_involutive, reverse_cons in Hr.
        exists (reverse r), c. split; [done |].
        apply (proj1 (Forall_forall _ _) Hw). rewrite Hr. set_solver.
    + exists (w ++ 91%N :: label), 93%N. split; [| done].
      by rewrite <- app_assoc.
Qed.

Lemma tagged_is_word w label : is_word w → no_space label → is_word (tagged w label).
Proof.
  intros [Hne Hw] Hl. unfold tagged. split; [by destruct w |].
  apply Forall_app. split; [done |].
  destruct (annotation_cases label) as [-> | ->]; [apply Forall_nil_2 |].
  apply Forall_cons_2; [done |]. apply Forall_app. split; [done |].
  by apply Forall_cons_2; [| apply Forall_nil_2].
Qed.

Lemma join_trimmed_last t ts :
  Forall trimmed (t :: ts) →
  ∃ s c, join (py " ") (t :: ts) = s ++ [c] ∧ isspace c = false.
Proof.
  revert t. induction ts as [|t' ts IH]; intros t Hall.
  - apply Forall_cons_1 in Hall as [[_ (s & c & -> & Hc)] _]. by exists s, c.
  - apply Forall_cons_1 in Hall as [_ Hall].
    destruct (IH t' Hall) as (s & c & Hs & Hc).
    exists (t ++ py " " ++ s), c. split; [| done].
    change (join (py " ") (t :: t' :: ts))
      with (t ++ py " " ++ join (py " ") (t' :: ts)).
    by rewrite Hs, <- !app_assoc.
Qed.

Lemma strip_spaced_trimmed ts :
  Forall trimmed ts → strip (spaced ts) = join (py " ") ts.
Proof.
  intros Hall. destruct ts as [|t ts]; [done |].
  unfold strip, rstrip.
  assert (lstrip (spaced (t :: ts)) = spaced (t :: ts)) as ->.
  { rewrite spaced_cons.
    apply Forall_cons_1 in Hall as [[(c & t' & -> & Hc) _] _].
    simpl. by rewrite Hc. }
  rewrite spaced_join. destruct (join_trimmed_last t ts Hall) as (s & c & -> & Hc).
  rewrite reverse_app. change (reverse (py " ")) with [32%N]. simpl.
  rewrite reverse_app. change (reverse [c]) with [c]. simpl. rewrite Hc.
  change (c :: reverse s) with ([c] ++ reverse s).
  by rewrite reverse_app, reverse_involutive.
Qed.

Lemma Forall_zip_with_tagged (P : str → Prop) words : ∀ labs,
  (∀ w label, w ∈ words → label ∈ labs → P (tagged w label)) →
  Forall P (zip_with tagged words labs).
Proof.
  induction words as [|w words IH]; intros [|label labs] H;
    try apply Forall_nil_2.
  apply Forall_cons_2.
  - apply H; by left.
  - apply IH. intros w' l' Hw Hl. apply H; by right.
Qed.

(** X2: whatever the labels, the printed result [output.strip()] is the
    words, each with its tag if it has one, joined by single spaces. *)
Theorem printed_result_joins_tagged_words labels_dict preds subtokens_mask i
    query output :
  label_query labels_dict preds subtokens_mask i query = Ok output →
  ∃ pred labs,
    select_pred preds subtokens_mask i = Ok pred
    ∧ word_labels labels_dict pred 0 (length (split (strip query))) = Ok labs
    ∧ strip output
      = join (py " ") (zip_with tagged (split (strip query)) labs).
Proof.
  intros H. apply label_query_Ok in H as (pred & labs & Hp & Hl & ->).
  exists pred, labs. split; [done |]. split; [done |].
  rewrite render_tagged. apply strip_spaced_trimmed.
  apply Forall_zip_with_tagged. intros w label Hw _. apply tagged_trimmed.
  by apply (proj1 (Forall_forall _ _) (split_words (strip query))).
Qed.

Lemma printed_result_joins_tagged_words_witness :
  ∃ pred labs,
    select_pred sample_preds sample_mask 0 = Ok pred
    ∧ word_labels iob_labels pred 0 (length (split (strip sample_query)))
      = Ok labs
    ∧ strip (py "Oral contraceptives protect against ovarian[B] cancer[I] in general , but it is not known whether they also protect against hereditary forms . ")
      = join (py " ") (zip_with tagged (split (strip sample_query)) labs).
Proof.
  apply (printed_result_joins_tagged_words iob_labels sample_preds
           sample_mask 0 sample_query).
  vm_compute. reflexivity.
Defined.

(** X3: when no label of [labels_dict] contains whitespace, splitting the
    output on whitespace gives one token per word, in the order of the
    words: the word followed by its tag if it has one. *)
Theorem output_has_one_token_per_word labels_dict preds subtokens_mask i
    query output :
  (∀ p label, labels_dict !! p = Some label → no_space label) →
  label_query labels_dict preds subtokens_mask i query = Ok output →
  ∃ pred labs,
    select_pred preds subtokens_mask i = Ok pred
    ∧ word_labels labels_dict pred 0 (length (split (strip query))) = Ok labs
    ∧ split output = zip_with tagged (split (strip query)) labs
    ∧ length (split output) = length (split (strip query)).
Proof.
  intros Hlabels H. apply label_query_Ok in H as (pred & labs & Hp & Hl & ->).
  exists pred, labs. split; [done |]. split; [done |].
  apply word_labels_Ok in Hl as [Hlen Hk].
  assert (split (render (zip (split (strip query)) labs))
          = zip_with tagged (split (strip query)) labs) as ->.
  { rewrite render_tagged. apply split_spaced.
    apply Forall_zip_with_tagged. intros w label Hw Hlab. apply tagged_is_word.
    - by apply (proj1 (Forall_forall _ _) (split_words (strip query))).
    - apply list_elem_of_lookup in Hlab as [k Hlab].
      destruct (Hk k) as (p & label' & _ & Hd & Hl').
      { rewrite <- Hlen. by eapply lookup_lt_Some. }
      simplify_eq. by eapply Hlabels. }
  split; [done |]. rewrite length_zip_with. lia.
Qed.

Lemma output_has_one_token_per_word_witness :
  ∃ pred labs,
    select_pred sample_preds sample_mask 0 = Ok pred
    ∧ word_labels iob_labels pred 0 (length (split (strip sample_query)))
      = Ok labs
    ∧ split (py "Oral contraceptives protect against ovarian[B] cancer[I] in general , but it is not known whether they also protect against hereditary forms . ")
      = zip_with tagged (split (strip sample_query)) labs
    ∧ length (split (py "Oral contraceptives protect against ovarian[B] cancer[I] in general , but it is not known whether they also protect against hereditary forms . "))
      = length (split (strip sample_query)).
Proof.
  apply (output_has_one_token_per_word iob_labels sample_preds sample_mask 0
           sample_query).
  - intros p label Hl.
    assert (label ∈ [py "O"; py "B"; py "I"]) as Hin.
    { unfold iob_labels in Hl.
      apply lookup_insert_Some in Hl as [[_ <-] | [_ Hl]]; [set_solver |].
      apply lookup_insert_Some in Hl as [[_ <-] | [_ Hl]]; [set_solver |].
      apply lookup_singleton_Some in Hl as [_ <-]. set_solver. }
    apply elem_of_cons in Hin as [-> | Hin]; [compute_done |].
    apply elem_of_cons in Hin as [-> | Hin]; [compute_done |].
    apply elem_of_cons in Hin as [-> | Hin]; [compute_done |].
    by apply elem_of_nil in Hin.
  - vm_compute. reflexivity.
Defined.

(** X4: a query that is empty or all whitespace has no words; its output
    is the empty string, whatever the predictions, even with no selected
    position at all. *)
Theorem blank_query_gives_empty_output labels_dict preds subtokens_mask i
    query pred :
  Forall (λ c, isspace c = true) query →
  select_pred preds subtokens_mask i = Ok pred →
  split (strip query) = []
  ∧ label_query labels_dict preds subtokens_mask i query = Ok [].
Proof.
  intros Hblank Hpred.
  assert (lstrip query = []) as Hl.
  { induction Hblank as [|c s Hc _ IH]; [done |]. simpl. by rewrite Hc. }
  assert (split (strip query) = []) as Hw.
  { unfold strip. by rewrite Hl. }
  split; [done |]. unfold label_query. rewrite Hpred, Hw. done.
Qed.

Lemma blank_query_gives_empty_output_witness :
  split (strip (py "   ")) = []
  ∧ label_query iob_labels [[0; 1]%Z] [[0; 0]%Q] 0 (py "   ") = Ok [].
Proof.
  apply (blank_query_gives_empty_output iob_labels [[0; 1]%Z] [[0; 0]%Q] 0
           (py "   ") []).
  - compute_done.
  - vm_compute. reflexivity.
Defined.

(** ** Which predictions the output depends on *)

Lemma word_labels_ext labels_dict pred1 pred2 n : ∀ j,
  (∀ k, k < n → pred1 !! (j + k) = pred2 !! (j + k)) →
  word_labels labels_dict pred1 j n = word_labels labels_dict pred2 j n.
Proof.
  induction n as [|n IH]; intros j Hagree; [done |].
  rewrite !word_labels_S. unfold getitem.
  assert (pred1 !! j = pred2 !! j) as ->.
  { rewrite <- (Nat.add_0_r j). apply Hagree. lia. }
  rewrite (IH (S j)); [done |].
  intros k Hk. replace (S j + k) with (j + S k) by lia. apply Hagree. lia.
Qed.

(** X5: only the first [len(words)] entries of [pred] are read: entries
    beyond them do not change the outcome of the word loop. *)
Theorem surplus_predictions_are_ignored labels_dict (pred extra : list Z)
    (words : list str) (output : str) :
  length words ≤ length pred →
  label_words labels_dict (pred ++ extra) 0 words output
  = label_words labels_dict pred 0 words output.
Proof.
  intros Hlen. rewrite !label_words_spec.
  rewrite (word_labels_ext labels_dict (pred ++ extra) pred); [done |].
  intros k Hk. apply lookup_app_l. simpl. lia.
Qed.

Lemma surplus_predictions_are_ignored_witness :
  label_words iob_labels ([1; 2]%Z ++ [7; 7]%Z) 0 [py "ovarian"; py "cancer"] []
  = label_words iob_labels [1; 2]%Z 0 [py "ovarian"; py "cancer"] [].
Proof.
  apply (surplus_predictions_are_ignored iob_labels [1; 2]%Z [7; 7]%Z
           [py "ovarian"; py "cancer"] []).
  simpl. lia.
Defined.

Lemma take_where_agree {A} (a1 : list A) : ∀ a2 bits,
  length a1 = length a2 →
  (∀ k, bits !! k = Some true → a1 !! k = a2 !! k) →
  take_where a1 bits = take_where a2 bits.
Proof.
  induction a1 as [|x1 a1 IH]; intros [|x2 a2] [|b bits] Hlen Hagree;
    try done.
  simpl in Hlen. simpl. rewrite (IH a2 bits); [| lia |].
  - destruct b; [| done]. specialize (Hagree 0 eq_refl). by simplify_eq/=.
  - intros k Hk. apply (Hagree (S k)). done.
Qed.

(** X6: class ids at positions whose mask value is not above 0.5 (the
    special tokens, the later pieces of a word, the padding) never reach
    the output: two prediction arrays that agree wherever
    [subtokens_mask[i] > 0.5] give the same outcome for query [i]. *)
Theorem masked_positions_do_not_matter labels_dict preds1 preds2
    subtokens_mask i query (row1 row2 : list Z) (mask : list Q) :
  preds1 !! i = Some row1 →
  preds2 !! i = Some row2 →
  subtokens_mask !! i = Some mask →
  length row1 = length row2 →
  (∀ k m, mask !! k = Some m → (1 # 2 < m)%Q → row1 !! k = row2 !! k) →
  label_query labels_dict preds1 subtokens_mask i query
  = label_query labels_dict preds2 subtokens_mask i query.
Proof.
  intros H1 H2 Hm Hlen Hagree.
  unfold label_query, select_pred, getitem, boolean_index.
  rewrite H1, H2, Hm. simpl. rewrite <- Hlen.
  destruct (decide (length (gt_half <$> mask) = length row1)); [simpl | done].
  rewrite (take_where_agree row1 row2); [done | done |].
  intros k Hk. apply list_lookup_fmap_Some in Hk as (m & Hmk & Hgt).
  apply (Hagree k m); [done |]. by apply gt_half_spec.
Qed.

Lemma masked_positions_do_not_matter_witness :
  label_query iob_labels [[0; 1; 2; 0]%Z] [[0; 1; 0; 1]%Q] 0 (py "a b")
  = label_query iob_labels [[2; 1; 1; 0]%Z] [[0; 1; 0; 1]%Q] 0 (py "a b").
Proof.
  apply (masked_positions_do_not_matter iob_labels [[0; 1; 2; 0]%Z]
           [[2; 1; 1; 0]%Z] [[0; 1; 0; 1]%Q] 0 (py "a b")
           [0; 1; 2; 0]%Z [2; 1; 1; 0]%Z [0; 1; 0; 1]%Q);
    try reflexivity.
  intros k m Hk Hm.
  destruct k as [|[|[|[|k]]]]; simplify_eq/=; try done;
    exfalso; revert Hm; compute; by intros [=].
Defined.

(** ** Which exceptions the labeling raises *)

Lemma select_pred_Raise preds subtokens_mask i e :
  select_pred preds subtokens_mask i = Raise e →
  e = IndexError
  ∧ (preds !! i = None ∨ subtokens_mask !! i = None
     ∨ ∃ row mask, preds !! i = Some row ∧ subtokens_mask !! i = Some mask
                   ∧ length mask ≠ length row).
Proof.
  unfold select_pred, getitem, boolean_index.
  destruct (preds !! i) as [row|]; simpl; [| intros [= <-]; auto].
  destruct (subtokens_mask !! i) as [mask|]; simpl; [| intros [= <-]; auto].
  rewrite length_fmap. destruct (decide (length mask = length row)); [done |].
  intros [= <-]. split; [done |]. right. right. by exists row, mask.
Qed.

(** X7: labeling a query raises nothing but [IndexError] and [KeyError].
    [IndexError] means that [preds] or [subtokens_mask] has no row [i], that
    the two rows differ in length, or that fewer positions are selected than
    the query has words; [KeyError] means that a selected class id is no
    key of [labels_dict]. *)
Theorem label_query_raises_only_lookup_errors labels_dict preds
    subtokens_mask i query e :
  label_query labels_dict preds subtokens_mask i query = Raise e →
  (e = IndexError
   ∧ (preds !! i = None ∨ subtokens_mask !! i = None
      ∨ ∃ row mask,
          preds !! i = Some row ∧ subtokens_mask !! i = Some mask
          ∧ (length mask ≠ length row
             ∨ length (take_where row (gt_half <$> mask))
               < length (split (strip query)))))
  ∨ (e = KeyError
     ∧ ∃ row mask p,
         preds !! i = Some row ∧ subtokens_mask !! i = Some mask
         ∧ p ∈ take_where row (gt_half <$> mask)
         ∧ labels_dict !! p = None).
Proof.
  rewrite label_query_spec.
  destruct (select_pred preds subtokens_mask i) as [pred|e'] eqn:Hsel; simpl.
  - apply select_pred_Ok in Hsel as (row & mask & Hrow & Hmask & Hlen & ->).
    destruct (word_labels _ _ _ _) as [labs|e'] eqn:Hwl; [done |].
    intros [= ->]. apply word_labels_Raise in Hwl as (k & Hk & _ & Hat).
    simpl in Hat. destruct Hat as [[Hnone ->] | (p & Hp & Hnone & ->)].
    + left. split; [done |]. right. right. exists row, mask.
      split; [done |]. split; [done |]. right.
      apply lookup_ge_None in Hnone. lia.
    + right. split; [done |]. exists row, mask, p.
      split; [done |]. split; [done |]. split; [| done].
      by eapply list_elem_of_lookup_2.
  - intros [= ->]. apply select_pred_Raise in Hsel as (-> & Hwhy). left.
    split; [done |]. destruct Hwhy as [? | [? | (row & mask & ? & ? & ?)]];
      [by left | by right; left |]. right. right. exists row, mask. auto.
Qed.

Lemma label_query_raises_only_lookup_errors_witness :
  (IndexError = IndexError
   ∧ ([[0; 1; 0]%Z] !! 0 = None ∨ [[0; 1; 0]%Q] !! 0 = None
      ∨ ∃ row mask,
          [[0; 1; 0]%Z] !! 0 = Some row ∧ [[0; 1; 0]%Q] !! 0 = Some mask
          ∧ (length mask ≠ length row
             ∨ length (take_where row (gt_half <$> mask))
               < length (split (strip (py "a b"))))))
  ∨ (IndexError = KeyError
     ∧ ∃ row mask p,
         [[0; 1; 0]%Z] !! 0 = Some row ∧ [[0; 1; 0]%Q] !! 0 = Some mask
         ∧ p ∈ take_where row (gt_half <$> mask)
         ∧ iob_labels !! p = None).
Proof.
  apply (label_query_raises_only_lookup_errors iob_labels [[0; 1; 0]%Z]
           [[0; 1; 0]%Q] 0 (py "a b") IndexError).
  vm_compute. reflexivity.
Defined.

Lemma concat_elem_of {A} (x : A) (ls : list (list A)) :
  x ∈ concat ls → ∃ l, l ∈ ls ∧ x ∈ l.
Proof.
  induction ls as [|l ls IH]; simpl; [by intros ?%elem_of_nil |].
  intros [Hx | Hx]%elem_of_app.
  - exists l. split; [by left | done].
  - destruct (IH Hx) as (l' & ? & ?). exists l'. split; [by right | done].
Qed.

(** X8: if every vector of logits has at most [num_classes] entries and
    [labels_dict] has a key for every class id below [num_classes], the
    labeling never raises [KeyError]: it returns an output or raises
    [IndexError]. *)
Theorem full_vocabulary_excludes_KeyError (labels_dict : gmap Z str)
    (tensors : infer_tensors) preds subtokens_mask (num_classes : nat)
    i query :
  gather tensors = Ok (preds, subtokens_mask) →
  (∀ batch row scores,
     batch ∈ tensors.1 → row ∈ batch → scores ∈ row →
     length scores ≤ num_classes) →
  (∀ c, (0 ≤ c < Z.of_nat num_classes)%Z → is_Some (labels_dict !! c)) →
  (∃ output, label_query labels_dict preds subtokens_mask i query = Ok output)
  ∨ label_query labels_dict preds subtokens_mask i query = Raise IndexError.
Proof.
  intros Hg Hshape Hkeys. apply gather_Ok in Hg as (_ & _ & _ & Hpreds).
  rewrite label_query_spec.
  destruct (select_pred preds subtokens_mask i) as [pred|e'] eqn:Hsel; simpl.
  2:{ right. by apply select_pred_Raise in Hsel as [-> _]. }
  apply select_pred_Ok in Hsel as (row & mask & Hrow & Hmask & Hlen & ->).
  destruct (word_labels _ _ _ _) as [labs|e'] eqn:Hwl; [left; by eexists |].
  right. simpl. f_equal.
  apply word_labels_Raise in Hwl as (k & Hk & _ & Hat).
  destruct Hat as [[_ ->] | (p & Hp & Hnone & ->)]; [done |]. exfalso.
  apply list_elem_of_lookup_2, take_where_elem_of in Hp.
  apply list_elem_of_lookup in Hp as [pos Hpos].
  destruct (argmax_axis2_lookup _ _ _ _ _ _ Hpreds Hrow Hpos)
    as (scores & Hs & Ha).
  destruct (concat tensors.1 !! i) as [lrow|] eqn:Hl; [simpl in Hs | done].
  apply argmax_max in Ha as (Hp0 & x & Hx & _).
  apply lookup_lt_Some in Hx.
  destruct (concat_elem_of lrow tensors.1) as (batch & Hb & Hin).
  { by eapply list_elem_of_lookup_2. }
  assert (length scores ≤ num_classes) as Hle.
  { eapply Hshape; [done | done |]. by eapply list_elem_of_lookup_2. }
  destruct (Hkeys p) as [label Hlabel]; [lia | congruence].
Qed.

Lemma full_vocabulary_excludes_KeyError_witness :
  (∃ output,
     label_query iob_labels [[0; 1; 2; 0]%Z] [[0; 1; 0; 0]%Q] 0
       (py "ovarian cancer") = Ok output)
  ∨ label_query iob_labels [[0; 1; 2; 0]%Z] [[0; 1; 0; 0]%Q] 0
      (py "ovarian cancer") = Raise IndexError.
Proof.
  apply (full_vocabulary_excludes_KeyError iob_labels
           ([[[[3; 1; 0]; [0; 2; 1]; [0; 1; 5]; [1; 1; 0]]%Q]],
            [[[0; 1; 0; 0]%Q]])
           [[0; 1; 2; 0]%Z] [[0; 1; 0; 0]%Q] 3 0 (py "ovarian cancer")).
  - vm_compute. reflexivity.
  - intros batch row scores Hb Hr Hs.
    apply list_elem_of_singleton in Hb as ->.
    apply list_elem_of_singleton in Hr as ->.
    repeat (apply elem_of_cons in Hs as [-> | Hs]; [simpl; lia |]).
    by apply elem_of_nil in Hs.
  - intros c Hc.
    assert (c = 0 ∨ c = 1 ∨ c = 2)%Z as [-> | [-> | ->]] by lia;
      by eexists; vm_compute.
Defined.

(** ** Gathering the tensors *)

Lemma traverse_Raise {A B} (f : A → result B) l e :
  traverse f l = Raise e → ∃ x, x ∈ l ∧ f x = Raise e.
Proof.
  induction l as [|x l IH]; simpl; [done |].
  destruct (f x) as [y|e'] eqn:Hx; simpl.
  - destruct (traverse f l) as [ys|e'']; simpl; [done |].
    intros [= ->]. destruct IH as (x' & ? & ?); [done |].
    exists x'. split; [by right | done].
  - intros [= ->]. exists x. split; [by left | done].
Qed.

Lemma concatenate_Raise {A S} `{EqDecision S} (shape : A → S) lists e :
  concatenate shape lists = Raise e → e = ValueError.
Proof.
  unfold concatenate. destruct lists; [by intros [= <-] |].
  destruct (same_shape _ _); [done | by intros [= <-]].
Qed.

(** X9: the class ids have the shape of the logits without their class
    axis: [preds] has one row per row of the concatenated batches, every row
    as long as its row of logits; the rows of [preds] have one common length
    and so have the rows of [subtokens_mask]. *)
Theorem gather_keeps_shape (tensors : infer_tensors) preds subtokens_mask :
  gather tensors = Ok (preds, subtokens_mask) →
  length preds = sum_list (length <$> tensors.1)
  ∧ length subtokens_mask = sum_list (length <$> tensors.2)
  ∧ Forall2 (λ row scores, length row = length scores)
      preds (concat tensors.1)
  ∧ (∀ row1 row2, row1 ∈ preds → row2 ∈ preds → length row1 = length row2)
  ∧ (∀ mask1 mask2, mask1 ∈ subtokens_mask → mask2 ∈ subtokens_mask →
       length mask1 = length mask2).
Proof.
  unfold gather. intros H.
  apply bind_Ok in H as (logits & Hl & H).
  apply bind_Ok in H as (mask & Hm & H).
  apply bind_Ok in H as (preds' & Hp & [= <- <-]).
  destruct (concatenate_Ok _ _ _ Hl) as (-> & _ & Hlshape).
  destruct (concatenate_Ok _ _ _ Hm) as (-> & _ & Hmshape).
  apply traverse_Ok in Hp.
  assert (Forall2 (λ row scores : list _, length row = length scores)
            preds' (concat tensors.1)) as Hrows.
  { apply Forall2_flip. eapply Forall2_impl; [exact Hp |].
    intros scores row Hr. apply traverse_Ok in Hr.
    symmetry. by eapply Forall2_length. }
  assert (∀ ls : list (list (list Q)),
            length (concat ls) = sum_list (length <$> ls)) as Hsum1.
  { induction ls as [|l ls IH]; [done |]. simpl. by rewrite length_app, IH. }
  assert (∀ ls : list (list (list (list Q))),
            length (concat ls) = sum_list (length <$> ls)) as Hsum2.
  { induction ls as [|l ls IH]; [done |]. simpl. by rewrite length_app, IH. }
  split; [rewrite <- Hsum2; symmetry; by eapply Forall2_length |].
  split; [apply Hsum1 |]. split; [done |]. split; [| done].
  intros row1 row2 H1 H2.
  apply list_elem_of_lookup in H1 as [k1 H1].
  apply list_elem_of_lookup in H2 as [k2 H2].
  destruct (Forall2_lookup_l _ _ _ _ _ Hrows H1) as (s1 & Hs1 & ->).
  destruct (Forall2_lookup_l _ _ _ _ _ Hrows H2) as (s2 & Hs2 & ->).
  rewrite <- (length_fmap length s1), <- (length_fmap length s2).
  f_equal. apply Hlshape; by eapply list_elem_of_lookup_2.
Qed.

Lemma gather_keeps_shape_witness :
  length [[0; 1; 2; 0]%Z; [0; 0; 0; 0]%Z]
  = sum_list (length <$> [[[[3; 1; 0]; [0; 2; 1]; [0; 1; 5]; [1; 1; 0]]%Q];
                          [[[1; 0; 0]; [1; 0; 0]; [1; 0; 0]; [1; 0; 0]]%Q]])
  ∧ length [[0; 1; 1; 0]%Q; [0; 1; 0; 0]%Q]
    = sum_list (length <$> [[[0; 1; 1; 0]%Q]; [[0; 1; 0; 0]%Q]])
  ∧ Forall2 (λ row scores, length row = length scores)
      [[0; 1; 2; 0]%Z; [0; 0; 0; 0]%Z]
      (concat [[[[3; 1; 0]; [0; 2; 1]; [0; 1; 5]; [1; 1; 0]]%Q];
               [[[1; 0; 0]; [1; 0; 0]; [1; 0; 0]; [1; 0; 0]]%Q]])
  ∧ (∀ row1 row2, row1 ∈ [[0; 1; 2; 0]%Z; [0; 0; 0; 0]%Z] →
       row2 ∈ [[0; 1; 2; 0]%Z; [0; 0; 0; 0]%Z] → length row1 = length row2)
  ∧ (∀ mask1 mask2, mask1 ∈ [[0; 1; 1; 0]%Q; [0; 1; 0; 0]%Q] →
       mask2 ∈ [[0; 1; 1; 0]%Q; [0; 1; 0; 0]%Q] →
       length mask1 = length mask2).
Proof.
  apply (gather_keeps_shape
           ([[[[3; 1; 0]; [0; 2; 1]; [0; 1; 5]; [1; 1; 0]]%Q];
             [[[1; 0; 0]; [1; 0; 0]; [1; 0; 0]; [1; 0; 0]]%Q]],
            [[[0; 1; 1; 0]%Q]; [[0; 1; 0; 0]%Q]])).
  vm_compute. reflexivity.
Defined.

(** X10: gathering raises nothing but [ValueError], and it does raise it
    when [nf.infer] returned no batch for the logits or for the mask. *)
Theorem gather_raises_only_ValueError (tensors : infer_tensors) :
  (∀ e, gather tensors = Raise e → e = ValueError)
  ∧ (tensors.1 = [] ∨ tensors.2 = [] → gather tensors = Raise ValueError).
Proof.
  unfold gather. split.
  - intros e.
    destruct (concatenate _ tensors.1) as [logits|e1] eqn:Hl; simpl.
    2:{ intros [= <-]. by eapply concatenate_Raise. }
    destruct (concatenate _ tensors.2) as [mask|e2] eqn:Hm; simpl.
    2:{ intros [= <-]. by eapply concatenate_Raise. }
    destruct (argmax_axis2 logits) as [preds|e3] eqn:Hp; simpl; [done |].
    intros [= <-]. apply traverse_Raise in Hp as (row & _ & Hrow).
    apply traverse_Raise in Hrow as (scores & _ & Hs).
    destruct scores; [by injection Hs as <- | done].
  - intros [-> | Hm]; [done |].
    destruct (concatenate _ tensors.1) as [logits|e1] eqn:Hl; simpl.
    + by rewrite Hm.
    + f_equal. by eapply concatenate_Raise.
Qed.

(** ** What the outer loop prints *)

(** X12: when the labeling of every query succeeds, the loop returns
    normally and has printed, after what was printed before, exactly two
    strings per query in the order of the queries: the query, then its
    labeled result. *)
Theorem label_queries_prints_each_query blue green labels_dict preds
    subtokens_mask (queries outputs : list str) :
  ∀ i log,
  length outputs = length queries →
  (∀ k query output, queries !! k = Some query → outputs !! k = Some output →
     label_query labels_dict preds subtokens_mask (i + k) query = Ok output) →
  label_queries blue green labels_dict preds subtokens_mask i queries log
  = (log ++ concat (zip_with (query_lines blue green) queries outputs), Ok ()).
Proof.
  revert outputs. induction queries as [|query queries IH];
    intros [|output outputs] i log Hlen Hall; try done.
  - simpl. by rewrite app_nil_r.
  - rewrite label_queries_cons.
    assert (label_query labels_dict preds subtokens_mask i query = Ok output)
      as ->.
    { rewrite <- (Nat.add_0_r i). by apply Hall. }
    rewrite (IH outputs); [| simpl in Hlen; lia |].
    + simpl. by rewrite <- !app_assoc.
    + intros k q o Hq Ho. replace (S i + k) with (i + S k) by lia.
      by apply Hall.
Qed.

Lemma label_queries_prints_each_query_witness :
  label_queries (py "--") (py "**") iob_labels [[0; 1; 2; 0]%Z; [0; 0; 0; 0]%Z]
    [[0; 1; 1; 0]%Q; [0; 1; 0; 0]%Q] 0 [py "ovarian cancer"; py "known"] []
  = ([] ++ concat (zip_with (query_lines (py "--") (py "**"))
                     [py "ovarian cancer"; py "known"]
                     [py "ovarian[B] cancer[I] "; py "known "]),
     Ok ()).
Proof.
  apply (label_queries_prints_each_query (py "--") (py "**") iob_labels
           [[0; 1; 2; 0]%Z; [0; 0; 0; 0]%Z] [[0; 1; 1; 0]%Q; [0; 1; 0; 0]%Q]
           [py "ovarian cancer"; py "known"]
           [py "ovarian[B] cancer[I] "; py "known "] 0 []).
  - reflexivity.
  - intros k query output Hq Ho.
    destruct k as [|[|k]]; simplify_eq/=; by vm_compute.
Defined.

(** X13: when the labeling of a query fails, the results of the queries
    before it stay printed, the failing query itself has been announced,
    and no later query is touched: the log ends with the line of the
    failing query and the loop ends with its exception. *)
Theorem label_queries_stops_at_first_failure blue green labels_dict preds
    subtokens_mask (done_queries outputs : list str) (query : str)
    (rest : list str) (e : exn) :
  ∀ i log,
  length outputs = length done_queries →
  (∀ k q output, done_queries !! k = Some q → outputs !! k = Some output →
     label_query labels_dict preds subtokens_mask (i + k) q = Ok output) →
  label_query labels_dict preds subtokens_mask (i + length done_queries) query
  = Raise e →
  label_queries blue green labels_dict preds subtokens_mask i
    (done_queries ++ query :: rest) log
  = (log ++ concat (zip_with (query_lines blue green) done_queries outputs)
         ++ [py "Query:" ++ newline ++ query],
     Raise e).
Proof.
  revert outputs. induction done_queries as [|q qs IH];
    intros [|output outputs] i log Hlen Hall Hfail; try done.
  - simpl in Hfail. rewrite Nat.add_0_r in Hfail.
    change ([] ++ query :: rest) with (query :: rest).
    by rewrite label_queries_cons, Hfail.
  - change ((q :: qs) ++ query :: rest) with (q :: (qs ++ query :: rest)).
    rewrite label_queries_cons.
    assert (label_query labels_dict preds subtokens_mask i q = Ok output) as ->.
    { rewrite <- (Nat.add_0_r i). by apply Hall. }
    rewrite (IH outputs); [| simpl in Hlen; lia | |].
    + simpl. by rewrite <- !app_assoc.
    + intros k q' o Hq Ho. replace (S i + k) with (i + S k) by lia.
      by apply Hall.
    + replace (S i + length qs) with (i + length (q :: qs)) by (simpl; lia).
      done.
Qed.

Lemma label_queries_stops_at_first_failure_witness :
  label_queries (py "--") (py "**") iob_labels [[0; 1; 2; 0]%Z; [0; 0; 0; 0]%Z]
    [[0; 1; 1; 0]%Q; [0; 1; 0; 0]%Q] 0
    ([py "ovarian cancer"] ++ py "it is known" :: [py "never read"]) []
  = ([] ++ concat (zip_with (query_lines (py "--") (py "**"))
                     [py "ovarian cancer"] [py "ovarian[B] cancer[I] "])
        ++ [py "Query:" ++ newline ++ py "it is known"],
     Raise IndexError).
Proof.
  apply (label_queries_stops_at_first_failure (py "--") (py "**") iob_labels
           [[0; 1; 2; 0]%Z; [0; 0; 0; 0]%Z] [[0; 1; 1; 0]%Q; [0; 1; 0; 0]%Q]
           [py "ovarian cancer"] [py "ovarian[B] cancer[I] "]
           (py "it is known") [py "never read"] IndexError 0 []).
  - reflexivity.
  - intros k q output Hq Ho.
    destruct k as [|k]; simplify_eq/=; by vm_compute.
  - vm_compute. reflexivity.
Defined.

(** ** The model type *)

Lemma model_type_lookup {V} (v1 v2 : V) (model_type : str) :
  model_type ≠ py "biobert" → model_type ≠ py "biomegatron" →
  ({[ py "biobert" := v1; py "biomegatron" := v2 ]} : gmap str V) !! model_type
  = None.
Proof.
  intros H1 H2. rewrite lookup_insert_ne by done.
  by apply lookup_singleton_ne.
Qed.

(** X14: the cell that builds the tokenizer and the training data layer
    first indexes [PRETRAINED_MODEL_NAME] and [DO_LOWER_CASE] with
    [MODEL_TYPE]: both lookups succeed exactly for ['biobert'] and
    ['biomegatron']; for any other value the cell raises [KeyError] at
    [PRETRAINED_MODEL_NAME[MODEL_TYPE]], before any call of the framework,
    and neither the tokenizer nor [dl_train] is built. *)
Theorem only_two_model_types (model_type : str) :
  (model_type ∈ [py "biobert"; py "biomegatron"] ↔
   ∃ name lower,
     dict_getitem PRETRAINED_MODEL_NAME model_type = Ok name
     ∧ dict_getitem DO_LOWER_CASE model_type = Ok lower)
  ∧ (model_type ∉ [py "biobert"; py "biomegatron"] →
     dict_getitem PRETRAINED_MODEL_NAME model_type = Raise KeyError
     ∧ tokenizer model_type = Raise KeyError
     ∧ dl_train model_type = Raise KeyError).
Proof.
  assert (model_type ∉ [py "biobert"; py "biomegatron"] →
          dict_getitem PRETRAINED_MODEL_NAME model_type = Raise KeyError)
    as Hbad.
  { intros Hnot. unfold dict_getitem, PRETRAINED_MODEL_NAME.
    rewrite model_type_lookup; [done | |]; intros ->; apply Hnot; set_solver. }
  split.
  - split.
    + intros [-> | [-> | []%elem_of_nil]%elem_of_cons]%elem_of_cons;
        eexists _, _; split; vm_compute; reflexivity.
    + intros (name & lower & Hname & _).
      destruct (decide (model_type ∈ [py "biobert"; py "biomegatron"]));
        [done |]. rewrite Hbad in Hname; done.
  - intros Hnot. split; [by apply Hbad |].
    unfold dl_train, tokenizer. by rewrite (Hbad Hnot).
Qed.

(** ** Paths *)

Lemma not_slash_match {T} (c : char) (b : str) (x y : T) :
  c ≠ 47%N → match c :: b with 47%N :: _ => x | _ => y end = y.
Proof.
  intros Hc. destruct c as [|p]; [done |].
  repeat (destruct p as [p|p|]; try done).
Qed.

(** X15: joining a directory that ends in ['/'] with a relative name is
    plain concatenation, so [os.path.join(DATA_DIR, name)] and
    [DATA_DIR + name], both used in the notebook, name the same file; an
    absolute second argument replaces the directory. *)
Theorem os_path_join_directory (a b : str) :
  (head b ≠ Some 47%N → last a = Some 47%N → os_path_join a b = a ++ b)
  ∧ (head b = Some 47%N → os_path_join a b = b)
  ∧ (head b ≠ Some 47%N → os_path_join DATA_DIR b = DATA_DIR ++ b).
Proof.
  assert (∀ d : str, head b ≠ Some 47%N → last d = Some 47%N →
                     os_path_join d b = d ++ b) as Hdir.
  { intros d Hb Hd. unfold os_path_join.
    assert (reverse d = 47%N :: reverse (removelast d)) as ->.
    { destruct (last_Some d 47%N) as [(l' & ->) _]; [done |].
      rewrite reverse_app. simpl. f_equal. f_equal.
      by rewrite removelast_last. }
    destruct b as [|c b]; [done |].
    destruct (N.eqb_spec c 47) as [-> | Hc]; [done |].
    by rewrite not_slash_match. }
  split; [apply Hdir |]. split.
  - destruct b as [|c b]; [done |]. by intros [= ->].
  - intros Hb. by apply Hdir.
Qed.

(** ** Learning-rate schedule *)

(** X16: the schedule counts whole batches only: its steps cover all the
    examples of all epochs but fewer than one batch per epoch, and it has no
    step at all exactly when the data set is smaller than one batch. *)
Theorem total_steps_counts_whole_batches (len_dl_train : nat) :
  total_steps len_dl_train * BATCH_SIZE ≤ NUM_EPOCHS * len_dl_train
  ∧ NUM_EPOCHS * len_dl_train < (total_steps len_dl_train + NUM_EPOCHS) * BATCH_SIZE
  ∧ (total_steps len_dl_train = 0 ↔ len_dl_train < BATCH_SIZE).
Proof.
  unfold total_steps, steps_per_epoch, NUM_EPOCHS, BATCH_SIZE.
  pose proof (Nat.div_mod_eq len_dl_train 16) as Hdiv.
  pose proof (Nat.mod_upper_bound len_dl_train 16) as Hmod.
  split; [lia |]. split; [lia |]. split.
  - intros H. lia.
  - intros H. rewrite Nat.div_small; lia.
Qed.

(** ** When the labeling of a query succeeds *)

(** X17: the labeling of query [i] returns an output exactly when [preds]
    and [subtokens_mask] both have a row [i], the two rows are equally long,
    and each word of the query finds, at its index among the selected
    positions, a class id that is a key of [labels_dict]. *)
Theorem label_query_succeeds_iff labels_dict preds subtokens_mask i query :
  (∃ output, label_query labels_dict preds subtokens_mask i query = Ok output)
  ↔ ∃ row mask,
      preds !! i = Some row ∧ subtokens_mask !! i = Some mask
      ∧ length mask = length row
      ∧ ∀ j, j < length (split (strip query)) →
          ∃ p, take_where row (gt_half <$> mask) !! j = Some p
               ∧ is_Some (labels_dict !! p).
Proof.
  split.
  - intros [output H]. apply label_query_Ok in H as (pred & labs & Hp & Hl & _).
    apply select_pred_Ok in Hp as (row & mask & Hrow & Hmask & Hlen & ->).
    exists row, mask. split; [done |]. split; [done |]. split; [done |].
    apply word_labels_Ok in Hl as [_ Hk]. intros j Hj.
    destruct (Hk j Hj) as (p & label & Hp & Hlab & _).
    exists p. split; [done |]. by exists label.
  - intros (row & mask & Hrow & Hmask & Hlen & Hall).
    destruct (word_labels_total labels_dict (take_where row (gt_half <$> mask))
                0 (length (split (strip query))) Hall) as [labs Hlabs].
    eexists. apply label_query_Ok. eexists _, labs.
    split; [| split; [exact Hlabs | reflexivity]].
    apply select_pred_Ok. by exists row, mask.
Qed.

(** ** Batches of one query *)

Lemma concat_singletons {A} (ls : list (list A)) :
  Forall (λ l, length l = 1) ls → ∀ i, concat ls !! i = ls !! i ≫= head.
Proof.
  induction 1 as [|l ls Hl _ IH]; intros i; [done |].
  destruct l as [|x [|? ?]]; try done. destruct i; [done | apply IH].
Qed.

(** X18: when every batch returned by [nf.infer] holds one query (the
    test data layer is built with [batch_size=1]), query [i] is labeled from
    batch [i]: [preds[i]] holds the arg-maxima of the one row of the [i]-th
    logits batch and [subtokens_mask[i]] is the one row of the [i]-th mask
    batch; there are as many rows as batches. *)
Theorem one_query_per_batch (tensors : infer_tensors) preds subtokens_mask :
  gather tensors = Ok (preds, subtokens_mask) →
  Forall (λ batch, length batch = 1) tensors.1 →
  Forall (λ batch, length batch = 1) tensors.2 →
  length preds = length tensors.1
  ∧ length subtokens_mask = length tensors.2
  ∧ ∀ i,
      subtokens_mask !! i = tensors.2 !! i ≫= head
      ∧ ∀ row, preds !! i = Some row →
          ∃ scores, tensors.1 !! i = Some [scores]
                    ∧ traverse argmax scores = Ok row.
Proof.
  intros Hg H1 H2. apply gather_Ok in Hg as (_ & _ & -> & Hpreds).
  apply traverse_Ok in Hpreds.
  assert (∀ A (ls : list (list A)),
            Forall (λ l, length l = 1) ls → length (concat ls) = length ls)
    as Hlen.
  { intros A ls. induction 1 as [|l ls Hl _ IH]; [done |].
    simpl. rewrite length_app, IH, Hl. done. }
  split; [rewrite <- (Hlen _ _ H1); symmetry; by eapply Forall2_length |].
  split; [by apply Hlen |]. intros i. split; [by apply concat_singletons |].
  intros row Hrow.
  destruct (Forall2_lookup_r _ _ _ _ _ Hpreds Hrow) as (scores & Hs & Ha).
  exists scores. split; [| done].
  rewrite concat_singletons in Hs by done.
  destruct (tensors.1 !! i) as [batch|] eqn:Hb; [simpl in Hs | done].
  apply (proj1 (Forall_lookup _ _) H1 i) in Hb as Hone.
  destruct batch as [|x [|? ?]]; try done. by simplify_eq/=.
Qed.

Lemma one_query_per_batch_witness :
  length [[0; 1; 2; 0]%Z; [0; 0; 0; 0]%Z]
  = length [[[[3; 1; 0]; [0; 2; 1]; [0; 1; 5]; [1; 1; 0]]%Q];
            [[[1; 0; 0]; [1; 0; 0]; [1; 0; 0]; [1; 0; 0]]%Q]]
  ∧ length [[0; 1; 1; 0]%Q; [0; 1; 0; 0]%Q]
    = length [[[0; 1; 1; 0]%Q]; [[0; 1; 0; 0]%Q]]
  ∧ ∀ i,
      [[0; 1; 1; 0]%Q; [0; 1; 0; 0]%Q] !! i
      = [[[0; 1; 1; 0]%Q]; [[0; 1; 0; 0]%Q]] !! i ≫= head
      ∧ ∀ row, [[0; 1; 2; 0]%Z; [0; 0; 0; 0]%Z] !! i = Some row →
          ∃ scores,
            [[[[3; 1; 0]; [0; 2; 1]; [0; 1; 5]; [1; 1; 0]]%Q];
             [[[1; 0; 0]; [1; 0; 0]; [1; 0; 0]; [1; 0; 0]]%Q]] !! i
            = Some [scores]
            ∧ traverse argmax scores = Ok row.
Proof.
  apply (one_query_per_batch
           ([[[[3; 1; 0]; [0; 2; 1]; [0; 1; 5]; [1; 1; 0]]%Q];
             [[[1; 0; 0]; [1; 0; 0]; [1; 0; 0]; [1; 0; 0]]%Q]],
            [[[0; 1; 1; 0]%Q]; [[0; 1; 0; 0]%Q]])).
  - vm_compute. reflexivity.
  - compute_done.
  - compute_done.
Defined.
